(** * DuckyRecorder: the recording-to-Arduino compilation pipeline

    A shallow embedding of [EventRecorder] from [DuckyRecorder.py]: the
    timeline recorder with its modifier tracking, the delay computation of
    [save_recording], the instruction compiler [export_for_arduino] with its
    keycode table, the mouse-move splitter and the program renderer.

    Conventions of the embedding.
    - Python [int] is [Z]; Python [str] is [string], one [ascii] per code
      point, so the model covers strings over code points below 128.
    - An event of the timeline is a Python dict used as a record: it is a
      Rocq record whose fields are the dict's keys, [None] for an absent key.
    - The lookup tables ([key_map], [shift_map], ...) are dicts used as maps:
      they are [gmap string string].
    - [current_modifiers] is a Python [set]: a [gset string].
    - Console output is left out, except the two warnings of the compiler,
      which are collected as a list of diagnostics.
    - The clock is an input of a run: the readings of [time.time()] are
      given in milliseconds, one after the other.
    - Of the recorder, the session methods, the keyboard callbacks and the
      mouse callbacks are embedded, and of [_generate_arduino_example] the
      loop that renders the instructions; the menu appears only as the
      sequence of calls it makes, and the reading and writing of files are
      left out. *)

From stdpp Require Import gmap strings list fin_maps pretty sorting.
From Stdlib Require Import ZArith Lia Ascii.

Local Open Scope Z_scope.

(** ** Motion decomposer: [_calculate_steps] and [_split_mouse_move] *)

Module Motion.

(** The [while remaining > 0] loop of [_calculate_steps]; [steps] is returned
    in the order of the [append]s.  The loop need not terminate (a
    [max_step] of zero never decreases [remaining]), so it runs on fuel:
    [None] is a run that has not finished within [fuel] iterations. *)
Fixpoint calculate_steps_loop (fuel : nat) (remaining max_step direction : Z)
  : option (list Z) :=
  if remaining >? 0 then
    match fuel with
    | O => None
    | S fuel' =>
        let step := Z.min remaining max_step in
        cons (step * direction)
          <$> calculate_steps_loop fuel' (remaining - step) max_step direction
    end
  else Some [].

(** [_calculate_steps(value, max_step)].  Every iteration that terminates
    at all lowers [remaining] by at least one, so [abs(value)] iterations
    are enough whenever the loop terminates
    (see [calculate_steps_loop_diverges] for the other case). *)
Definition _calculate_steps (value max_step : Z) : option (list Z) :=
  if value =? 0 then Some []
  else
    let remaining := Z.abs value in
    let direction := if value >? 0 then 1 else -1 in
    calculate_steps_loop (Z.to_nat remaining) remaining max_step direction.

(** The dict [{"dx": step_x, "dy": step_y}]. *)
Record move := Move { m_dx : Z; m_dy : Z }.

(** [steps[i] if i < len(steps) else 0]. *)
Definition step_at (steps : list Z) (i : nat) : Z := default 0 (steps !! i).

(** [_split_mouse_move(dx, dy, max_step)]. *)
Definition _split_mouse_move (dx dy max_step : Z) : option (list move) :=
  steps_x ← _calculate_steps dx max_step;
  steps_y ← _calculate_steps dy max_step;
  let max_steps := Nat.max (length steps_x) (length steps_y) in
  Some ((λ i, Move (step_at steps_x i) (step_at steps_y i)) <$> seq 0 max_steps).

(** Signed sum of a list of steps. *)
Definition sumZ (l : list Z) : Z := foldr Z.add 0 l.

(** The greedy split written in closed form: [q] full steps of [max_step]
    and, when the division leaves a remainder, one last step with it. *)
Definition greedy (value max_step : Z) : list Z :=
  let a := Z.abs value in
  replicate (Z.to_nat (a / max_step)) (max_step * Z.sgn value)
  ++ (if a mod max_step =? 0 then [] else [a mod max_step * Z.sgn value]).

End Motion.

(** ** Failures of the Python code *)

(** What a modelled function does instead of returning a value. *)
Inductive failure :=
  | Diverges                  (* a loop that never ends *)
  | KeyError (key : string)   (* [d[key]] on a dict without that key *)
  | NothingToDo.              (* the early [return False] on an empty timeline *)

Inductive result (A : Type) :=
  | Ok (a : A)
  | Fail (f : failure).
Arguments Ok {A} a.
Arguments Fail {A} f.

Definition rbind {A B} (r : result A) (k : A → result B) : result B :=
  match r with
  | Ok a => k a
  | Fail f => Fail f
  end.

Notation "x ←! r ; k" := (rbind r (λ x, k))
  (at level 20, r at level 100, k at level 200, only parsing).
Notation "' p ←! r ; k" := (rbind r (λ x, let 'p := x in k))
  (at level 20, p pattern, r at level 100, k at level 200, only parsing).

(** A loop that ran out of fuel has not terminated. *)
Definition terminated {A} (o : option A) : result A :=
  match o with
  | Some a => Ok a
  | None => Fail Diverges
  end.

(** ** Python strings *)

Module PyStr.

(** A [string] stands for a Python [str] whose characters have code points
    below 128, one [ascii] for each character.  A [str] with a character
    beyond that range, whose class and upper case Python takes from the
    Unicode tables, has no counterpart here; [is_ascii] marks the strings
    that do stand for a [str], and a statement that depends on the class or
    the case of an arbitrary character assumes it. *)

(** [s.isascii()]. *)
Fixpoint is_ascii (s : string) : bool :=
  match s with
  | EmptyString => true
  | String c s' => Nat.ltb (Ascii.nat_of_ascii c) 128 && is_ascii s'
  end.

(** The one-character string with code point [n]. *)
Definition chr (n : nat) : string := String (Ascii.ascii_of_nat n) EmptyString.

(** A dict literal: a later entry for the same key replaces an earlier one. *)
Definition dict {V} (entries : list (string * V)) : gmap string V :=
  foldl (λ m kv, <[kv.1 := kv.2]> m) ∅ entries.

(** [d.get(k, dflt)]. *)
Definition get {V} (d : gmap string V) (k : string) (dflt : V) : V :=
  default dflt (d !! k).

Definition is_lower (c : ascii) : bool :=
  let n := Ascii.nat_of_ascii c in (Nat.leb 97 n && Nat.leb n 122)%bool.
Definition is_upper (c : ascii) : bool :=
  let n := Ascii.nat_of_ascii c in (Nat.leb 65 n && Nat.leb n 90)%bool.

Definition upper_char (c : ascii) : ascii :=
  if is_lower c then Ascii.ascii_of_nat (Ascii.nat_of_ascii c - 32) else c.

(** [s.upper()] for a [str] of code points below 128: the letters [a] to [z]
    go to [A] to [Z], and every other such character stays as it is. *)
Fixpoint upper (s : string) : string :=
  match s with
  | EmptyString => EmptyString
  | String c s' => String (upper_char c) (upper s')
  end.

Fixpoint all_alpha (s : string) : bool :=
  match s with
  | EmptyString => true
  | String c s' => (is_lower c || is_upper c) && all_alpha s'
  end.

(** [s.isalpha()] for a [str] of code points below 128: at least one
    character, and all of them among the letters [a] to [z] and [A] to [Z],
    which are the alphabetic characters of that range. *)
Definition isalpha (s : string) : bool :=
  match s with
  | EmptyString => false
  | _ => all_alpha s
  end.

(** [sub in s]. *)
Fixpoint contains (sub s : string) : bool :=
  String.prefix sub s ||
  match s with
  | EmptyString => false
  | String _ s' => contains sub s'
  end.

(** [len(s) == 1]. *)
Definition len_is_1 (s : string) : bool := Nat.eqb (String.length s) 1.

End PyStr.

(** ** Events of the timeline and instructions for the device *)

(** An event dict of [self.events].  The fields are the keys that the
    modelled code reads or writes; the descriptive keys that no code reads
    back ([info], [timestamp], the screen size and the pointer position) are
    left out.  [e_scan_code = Some None] is the key [scan_code] holding
    Python's [None]. *)
Record event := Event {
  e_type : option string;
  e_key : option string;
  e_t : option Z;
  e_delay : option Z;
  e_modifier : option bool;
  e_scan_code : option (option Z);
  e_button : option string;
  e_dx : option Z;
  e_dy : option Z;
  e_duration : option Z
}.

(** The dict [{"type": ty, "t": t}]. *)
Definition new_event (ty : string) (t : Z) : event :=
  {| e_type := Some ty; e_key := None; e_t := Some t; e_delay := None;
     e_modifier := None; e_scan_code := None; e_button := None;
     e_dx := None; e_dy := None; e_duration := None |}.

(** [event["delay"] = d]. *)
Definition set_delay (d : Z) (ev : event) : event :=
  {| e_type := e_type ev; e_key := e_key ev; e_t := e_t ev; e_delay := Some d;
     e_modifier := e_modifier ev; e_scan_code := e_scan_code ev;
     e_button := e_button ev; e_dx := e_dx ev; e_dy := e_dy ev;
     e_duration := e_duration ev |}.

(** [event["key"] = k]. *)
Definition set_key (k : string) (ev : event) : event :=
  {| e_type := e_type ev; e_key := Some k; e_t := e_t ev; e_delay := e_delay ev;
     e_modifier := e_modifier ev; e_scan_code := e_scan_code ev;
     e_button := e_button ev; e_dx := e_dx ev; e_dy := e_dy ev;
     e_duration := e_duration ev |}.

(** [event["modifier"] = m; event["scan_code"] = sc]. *)
Definition set_key_obj (m : bool) (sc : option Z) (ev : event) : event :=
  {| e_type := e_type ev; e_key := e_key ev; e_t := e_t ev; e_delay := e_delay ev;
     e_modifier := Some m; e_scan_code := Some sc;
     e_button := e_button ev; e_dx := e_dx ev; e_dy := e_dy ev;
     e_duration := e_duration ev |}.

(** [event["dx"] = dx; event["dy"] = dy]. *)
Definition set_dxdy (dx dy : Z) (ev : event) : event :=
  {| e_type := e_type ev; e_key := e_key ev; e_t := e_t ev; e_delay := e_delay ev;
     e_modifier := e_modifier ev; e_scan_code := e_scan_code ev;
     e_button := e_button ev; e_dx := Some dx; e_dy := Some dy;
     e_duration := e_duration ev |}.

(** [event["button"] = b]. *)
Definition set_button (b : string) (ev : event) : event :=
  {| e_type := e_type ev; e_key := e_key ev; e_t := e_t ev; e_delay := e_delay ev;
     e_modifier := e_modifier ev; e_scan_code := e_scan_code ev;
     e_button := Some b; e_dx := e_dx ev; e_dy := e_dy ev;
     e_duration := e_duration ev |}.

(** [event["duration"] = d]. *)
Definition set_duration (d : Z) (ev : event) : event :=
  {| e_type := e_type ev; e_key := e_key ev; e_t := e_t ev; e_delay := e_delay ev;
     e_modifier := e_modifier ev; e_scan_code := e_scan_code ev;
     e_button := e_button ev; e_dx := e_dx ev; e_dy := e_dy ev;
     e_duration := Some d |}.

(** An instruction dict of [arduino_events]. *)
Record arduino_event := ArduinoEvent {
  a_delay : option Z;
  a_type : option string;
  a_key : option string;
  a_dx : option Z;
  a_dy : option Z;
  a_button : option string;
  a_amount : option Z
}.

(** [{"delay": delay, "type": typ, "key": key}]. *)
Definition key_instr (delay : Z) (typ key : string) : arduino_event :=
  {| a_delay := Some delay; a_type := Some typ; a_key := Some key;
     a_dx := None; a_dy := None; a_button := None; a_amount := None |}.

(** [{"delay": delay, "type": "MOUSE_MOVE", "dx": dx, "dy": dy}]. *)
Definition move_instr (delay dx dy : Z) : arduino_event :=
  {| a_delay := Some delay; a_type := Some "MOUSE_MOVE"; a_key := None;
     a_dx := Some dx; a_dy := Some dy; a_button := None; a_amount := None |}.

(** [{"delay": delay, "type": typ, "button": button}]. *)
Definition button_instr (delay : Z) (typ button : string) : arduino_event :=
  {| a_delay := Some delay; a_type := Some typ; a_key := None;
     a_dx := None; a_dy := None; a_button := Some button; a_amount := None |}.

(** [{"delay": delay, "type": "MOUSE_SCROLL", "amount": amount}]. *)
Definition scroll_instr (delay amount : Z) : arduino_event :=
  {| a_delay := Some delay; a_type := Some "MOUSE_SCROLL"; a_key := None;
     a_dx := None; a_dy := None; a_button := None; a_amount := Some amount |}.

(** [ev["delay"] = d]. *)
Definition a_set_delay (d : Z) (ev : arduino_event) : arduino_event :=
  {| a_delay := Some d; a_type := a_type ev; a_key := a_key ev;
     a_dx := a_dx ev; a_dy := a_dy ev; a_button := a_button ev;
     a_amount := a_amount ev |}.

(** The two warnings that [export_for_arduino] prints. *)
Inductive diagnostic :=
  | UnmappedKey (key : string)     (* "tecla não mapeada ignorada: {key}" *)
  | UnknownEvent (etype : string). (* "Evento desconhecido ignorado: {etype}" *)

(** ** Instruction compiler: [export_for_arduino] and its keycode table *)

Module Compiler.
Import PyStr.

(** The dict [escapes] of [_escape_char]. *)
Definition escapes : gmap string string :=
  dict [ (chr 10, "\n"); (chr 13, "\r"); (chr 9, "\t");
         ("'", "\'"); (chr 34, "\" +:+ chr 34); ("\", "\\");
         (chr 7, "\a"); (chr 8, "\b"); (chr 12, "\f"); (chr 11, "\v") ].

(** [_escape_char(char)]. *)
Definition _escape_char (char : string) : string := get escapes char char.

(** The dict [key_map] of [_to_arduino_keycode]. *)
Definition key_map : gmap string string :=
  dict [ ("ESC", "KEY_ESC"); ("ENTER", "KEY_RETURN"); ("TAB", "KEY_TAB");
         ("SPACE", "KEY_SPACE"); ("BACKSPACE", "KEY_BACKSPACE");
         ("DELETE", "KEY_DELETE");
         ("SHIFT_LEFT", "KEY_LEFT_SHIFT"); ("SHIFT_RIGHT", "KEY_RIGHT_SHIFT");
         ("CTRL_LEFT", "KEY_LEFT_CTRL"); ("CTRL_RIGHT", "KEY_RIGHT_CTRL");
         ("ALT_LEFT", "KEY_LEFT_ALT"); ("ALT_RIGHT", "KEY_RIGHT_ALT");
         ("GUI_LEFT", "KEY_LEFT_GUI"); ("GUI_RIGHT", "KEY_RIGHT_GUI");
         ("UP_ARROW", "KEY_UP_ARROW"); ("DOWN_ARROW", "KEY_DOWN_ARROW");
         ("LEFT_ARROW", "KEY_LEFT_ARROW"); ("RIGHT_ARROW", "KEY_RIGHT_ARROW");
         ("F1", "KEY_F1"); ("F2", "KEY_F2"); ("F3", "KEY_F3"); ("F4", "KEY_F4");
         ("F5", "KEY_F5"); ("F6", "KEY_F6"); ("F7", "KEY_F7"); ("F8", "KEY_F8");
         ("F9", "KEY_F9"); ("F10", "KEY_F10"); ("F11", "KEY_F11");
         ("F12", "KEY_F12");
         ("HOME", "KEY_HOME"); ("END", "KEY_END"); ("PAGE_UP", "KEY_PAGE_UP");
         ("PAGE_DOWN", "KEY_PAGE_DOWN"); ("CAPS_LOCK", "KEY_CAPS_LOCK");
         ("NUM_LOCK", "KEY_NUM_LOCK"); ("PRINT_SCREEN", "KEY_PRINT_SCREEN");
         ("SCROLL_LOCK", "KEY_SCROLL_LOCK"); ("PAUSE", "KEY_PAUSE");
         ("INSERT", "KEY_INSERT"); ("MENU", "KEY_MENU"); ("TAB", "KEY_TAB") ].

(** The f-string ['{self._escape_char(key)}'], quotes included. *)
Definition char_literal (key : string) : string :=
  "'" +:+ _escape_char key +:+ "'".

(** [_to_arduino_keycode(key)]; [None] is Python's [None]. *)
Definition _to_arduino_keycode (key : string) : option string :=
  if len_is_1 key then Some (char_literal key)
  else key_map !! key.

(** Truth value of an optional string: [None] and the empty string are false. *)
Definition truthy (o : option string) : bool :=
  match o with
  | Some (String _ _) => true
  | _ => false
  end.

(** The dict [button_map] of the [mouse_down]/[mouse_up] branch. *)
Definition button_map : gmap string string :=
  dict [ ("LEFT", "MOUSE_LEFT"); ("RIGHT", "MOUSE_RIGHT");
         ("MIDDLE", "MOUSE_MIDDLE") ].

(** The inner loop [for m in moves] of the [mouse_move] branch, with its two
    variables [first] and [delay]. *)
Fixpoint move_events (moves : list Motion.move) (first : bool) (delay : Z)
  : list arduino_event :=
  match moves with
  | [] => []
  | m :: moves' =>
      move_instr (if first then delay else 0) (Motion.m_dx m) (Motion.m_dy m)
      :: move_events moves' false 0
  end.

(** One iteration of the loop [for event in self.events]: the instructions
    it appends to [arduino_events] and the warnings it prints. *)
Definition export_event (event : event)
  : result (list arduino_event * list diagnostic) :=
  let delay := default 0 (e_delay event) in
  let etype := default EmptyString (e_type event) in
  if bool_decide (etype ∈ ["key_down"; "key_up"]) then
    let key := default EmptyString (e_key event) in
    let arduino_key := _to_arduino_keycode key in
    let arduino_key :=
      if negb (truthy arduino_key) then
        if len_is_1 key then Some (char_literal key) else None
      else arduino_key in
    match arduino_key with
    | None => Ok ([], [UnmappedKey key])
    | Some arduino_key =>
        let typ := if bool_decide (etype = "key_down")
                   then "KEY_PRESS" else "KEY_RELEASE" in
        Ok ([key_instr delay typ arduino_key], [])
    end
  else if String.prefix "mouse_" etype then
    if bool_decide (etype = "mouse_move") then
      let dx := default 0 (e_dx event) in
      let dy := default 0 (e_dy event) in
      moves ←! terminated (Motion._split_mouse_move dx dy 127);
      Ok (move_events moves true delay, [])
    else if bool_decide (etype ∈ ["mouse_down"; "mouse_up"]) then
      let button :=
        get button_map (default "LEFT" (e_button event)) "MOUSE_LEFT" in
      let typ := if bool_decide (etype = "mouse_down")
                 then "MOUSE_PRESS" else "MOUSE_RELEASE" in
      Ok ([button_instr delay typ button], [])
    else if bool_decide (etype = "mouse_scroll") then
      let dy := default 0 (e_dy event) in
      if bool_decide (dy ≠ 0) then Ok ([scroll_instr delay (dy * 3)], [])
      else Ok ([], [])
    else Ok ([], [])
  else if bool_decide (etype ∈ ["start"; "stop"; "pause"; "resume"]) then
    Ok ([], [])
  else Ok ([], [UnknownEvent etype]).

(** The loop [for event in self.events], threading [arduino_events] and the
    printed warnings. *)
Fixpoint export_loop (events : list event)
    (arduino_events : list arduino_event) (printed : list diagnostic)
  : result (list arduino_event * list diagnostic) :=
  match events with
  | [] => Ok (arduino_events, printed)
  | event :: events' =>
      '(evts, warns) ←! export_event event;
      export_loop events' (arduino_events ++ evts) (printed ++ warns)
  end.

(** The body of the post-pass [for ev in arduino_events]. *)
Definition optimize_delay (ev : arduino_event) : arduino_event :=
  if default 0 (a_delay ev) <? 10 then a_set_delay 0 ev else ev.

(** [export_for_arduino], up to the point where the files are written: the
    final [arduino_events] and the warnings printed on the way. *)
Definition export_for_arduino (events : list event)
  : result (list arduino_event * list diagnostic) :=
  match events with
  | [] => Fail NothingToDo
  | _ =>
      '(arduino_events, printed) ←! export_loop events [] [];
      Ok (optimize_delay <$> arduino_events, printed)
  end.

End Compiler.

(** ** Finalize-time delays: the loop of [save_recording] *)

Module Saving.

(** The loop [for event in self.events] that fills [events_with_delays];
    [event["t"]] raises [KeyError] on an event without that key. *)
Fixpoint delays_loop (events : list event) (last_time : Z)
    (events_with_delays : list event) : result (list event * Z) :=
  match events with
  | [] => Ok (events_with_delays, last_time)
  | event :: events' =>
      match e_t event with
      | None => Fail (KeyError "t")
      | Some current_time =>
          let delay := current_time - last_time in
          let event_copy := set_delay delay event in
          delays_loop events' current_time (events_with_delays ++ [event_copy])
      end
  end.

(** [save_recording], up to the point where the file is written: the list
    [events_with_delays] and the final [last_time] (the [duration_ms] of the
    metadata). *)
Definition save_recording (events : list event) : result (list event * Z) :=
  match events with
  | [] => Fail NothingToDo
  | _ => delays_loop events 0 []
  end.

(** Sum of the [delay] values of a list of events. *)
Definition total_delay (events : list event) : Z :=
  foldr (λ ev acc, default 0 (e_delay ev) + acc) 0 events.

(** An event that carries its elapsed time. *)
Definition has_t (ev : event) : Prop := is_Some (e_t ev).

(** The elapsed time of the event before position [i]; zero before the
    first event. *)
Definition elapsed_before (events : list event) (i : nat) : Z :=
  match i with
  | O => 0
  | S j => default 0 (events !! j ≫= e_t)
  end.

(** The delays as the specification words them: every event gets its own
    elapsed time minus that of the event before it, starting from [last]. *)
Fixpoint with_delays (last_time : Z) (events : list event) : list event :=
  match events with
  | [] => []
  | event :: events' =>
      let t := default 0 (e_t event) in
      set_delay (t - last_time) event :: with_delays t events'
  end.

End Saving.

(** ** Timeline recorder and modifier tracker *)

Module Recorder.
Import PyStr.

(** A key as the keyboard listener delivers it: a member [Key.<name>] of
    pynput's enumeration of special keys, or a [KeyCode] with its [char]
    and [vk] attributes (either may be Python's [None]). *)
Inductive key :=
  | Key (name : string)
  | KeyCode (char : option string) (vk : option Z).

Global Instance key_eq_dec : EqDecision key.
Proof. solve_decision. Defined.

(** The dict [self.active_modifiers]; its four keys never change. *)
Record modifiers := Modifiers {
  SHIFT : bool;
  CTRL : bool;
  ALT : bool;
  GUI : bool
}.

(** [{k: False for k in self.active_modifiers}]. *)
Definition no_modifiers : modifiers := Modifiers false false false false.

(** The fields of [EventRecorder] that the keyboard and session methods use.
    [start_time] is in milliseconds.  [ticks] is not a field of the class: it
    counts the readings of the clock made so far. *)
Record recorder := RecorderState {
  events : list event;
  start_time : option Z;
  is_recording : bool;
  paused : bool;
  current_modifiers : gset string;
  active_modifiers : modifiers;
  ticks : nat
}.

Definition set_events (v : list event) (self : recorder) : recorder :=
  RecorderState v (start_time self) (is_recording self) (paused self)
    (current_modifiers self) (active_modifiers self) (ticks self).
Definition set_start_time (v : option Z) (self : recorder) : recorder :=
  RecorderState (events self) v (is_recording self) (paused self)
    (current_modifiers self) (active_modifiers self) (ticks self).
Definition set_is_recording (v : bool) (self : recorder) : recorder :=
  RecorderState (events self) (start_time self) v (paused self)
    (current_modifiers self) (active_modifiers self) (ticks self).
Definition set_paused (v : bool) (self : recorder) : recorder :=
  RecorderState (events self) (start_time self) (is_recording self) v
    (current_modifiers self) (active_modifiers self) (ticks self).
Definition set_current_modifiers (v : gset string) (self : recorder) : recorder :=
  RecorderState (events self) (start_time self) (is_recording self) (paused self)
    v (active_modifiers self) (ticks self).
Definition set_active_modifiers (v : modifiers) (self : recorder) : recorder :=
  RecorderState (events self) (start_time self) (is_recording self) (paused self)
    (current_modifiers self) v (ticks self).
Definition set_ticks (v : nat) (self : recorder) : recorder :=
  RecorderState (events self) (start_time self) (is_recording self) (paused self)
    (current_modifiers self) (active_modifiers self) v.

(** [EventRecorder.__init__]. *)
Definition init : recorder :=
  RecorderState [] None false false ∅ no_modifiers 0.

(** The dict [special_chars] of [_key_to_str]. *)
Definition special_chars : gmap string string :=
  dict [ (chr 9, "TAB"); (chr 10, "ENTER"); (chr 13, "ENTER");
         (" ", "SPACE"); (chr 27, "ESC"); (chr 8, "BACKSPACE");
         (chr 127, "DELETE") ].

(** The dict [arduino_map] of [_key_to_str]. *)
Definition arduino_map : gmap string string :=
  dict [ ("esc", "ESC"); ("enter", "ENTER"); ("tab", "TAB");
         ("space", "SPACE"); ("backspace", "BACKSPACE"); ("delete", "DELETE");
         ("shift", "SHIFT_LEFT"); ("shift_r", "SHIFT_RIGHT");
         ("shift_l", "SHIFT_LEFT");
         ("ctrl", "CTRL_LEFT"); ("ctrl_r", "CTRL_RIGHT"); ("ctrl_l", "CTRL_LEFT");
         ("alt", "ALT_LEFT"); ("alt_r", "ALT_RIGHT"); ("alt_l", "ALT_LEFT");
         ("cmd", "GUI_LEFT"); ("cmd_r", "GUI_RIGHT"); ("cmd_l", "GUI_LEFT");
         ("up", "UP_ARROW"); ("down", "DOWN_ARROW"); ("left", "LEFT_ARROW");
         ("right", "RIGHT_ARROW");
         ("f1", "F1"); ("f2", "F2"); ("f3", "F3"); ("f4", "F4"); ("f5", "F5");
         ("f6", "F6"); ("f7", "F7"); ("f8", "F8"); ("f9", "F9"); ("f10", "F10");
         ("f11", "F11"); ("f12", "F12");
         ("home", "HOME"); ("end", "END"); ("page_up", "PAGE_UP");
         ("page_down", "PAGE_DOWN"); ("caps_lock", "CAPS_LOCK");
         ("num_lock", "NUM_LOCK"); ("print_screen", "PRINT_SCREEN");
         ("scroll_lock", "SCROLL_LOCK"); ("pause", "PAUSE");
         ("insert", "INSERT"); ("menu", "MENU") ].

(** The dict [shift_map] of [_on_key_press]. *)
Definition shift_map : gmap string string :=
  dict [ ("`", "~"); ("1", "!"); ("2", "@"); ("3", "#"); ("4", "$");
         ("5", "%"); ("6", "^"); ("7", "&"); ("8", "*"); ("9", "(");
         ("0", ")"); ("-", "_"); ("=", "+"); ("[", "{"); ("]", "}");
         ("\", "|"); (";", ":"); ("'", chr 34); (",", "<"); (".", ">");
         ("/", "?") ].

(** The set [modifiers] of [_is_modifier], by member name. *)
Definition modifier_names : list string :=
  [ "shift"; "shift_r"; "shift_l"; "ctrl"; "ctrl_l"; "ctrl_r";
    "alt"; "alt_l"; "alt_r"; "cmd"; "cmd_l"; "cmd_r" ].

(** [_is_modifier(key)]. *)
Definition _is_modifier (k : key) : bool :=
  match k with
  | Key name => bool_decide (name ∈ modifier_names)
  | KeyCode _ _ => false
  end.

(** [str(key.vk)]. *)
Definition str_vk (vk : option Z) : string :=
  match vk with
  | Some n => pretty n
  | None => "None"
  end.

(** [_key_to_str(key)]. *)
Definition _key_to_str (k : key) : string :=
  match k with
  | KeyCode char vk =>
      match char with
      | Some (String _ _ as c) => get special_chars c c
      | _ => "KEYCODE_" +:+ str_vk vk
      end
  | Key name => get arduino_map name (upper name)
  end.

(** [_update_modifier_state(key_str, pressed)], on the dict of flags. *)
Definition _update_modifier_state (key_str : string) (pressed : bool)
    (m : modifiers) : modifiers :=
  let key_upper := upper key_str in
  if contains "SHIFT" key_upper then Modifiers pressed (CTRL m) (ALT m) (GUI m)
  else if contains "CTRL" key_upper then Modifiers (SHIFT m) pressed (ALT m) (GUI m)
  else if contains "ALT" key_upper then Modifiers (SHIFT m) (CTRL m) pressed (GUI m)
  else if contains "GUI" key_upper || contains "CMD" key_upper
       then Modifiers (SHIFT m) (CTRL m) (ALT m) pressed
  else m.

(** The dict that [_add_key_event] builds, [t] being the elapsed time it
    read: [type], [key] and [t], and, for a key object that is not [None],
    [modifier] and [scan_code] (the [vk] of a [KeyCode]; a member of [Key]
    has no such attribute). *)
Definition key_event (event_type key_str : string) (key_obj : option key)
    (t : Z) : event :=
  let event := set_key key_str (new_event ("key_" +:+ event_type) t) in
  match key_obj with
  | Some k =>
      set_key_obj (_is_modifier k)
        (match k with KeyCode _ vk => vk | Key _ => None end) event
  | None => event
  end.

(** Two states of one session that differ at most in the timeline and in
    the clock readings made. *)
Definition same_session (s s' : recorder) : Prop :=
  start_time s' = start_time s ∧ is_recording s' = is_recording s ∧
  paused s' = paused s ∧ current_modifiers s' = current_modifiers s ∧
  active_modifiers s' = active_modifiers s.

Section WithEnvironment.

(** The environment of a run: [clock n] is the [n]-th reading of
    [time.time()], in milliseconds, and [set_order s] is the order in which
    Python iterates over the set [s]. *)
Variable clock : nat → Z.
Variable set_order : gset string → list string.

(** [time.time()]. *)
Definition time (self : recorder) : Z * recorder :=
  (clock (ticks self), set_ticks (S (ticks self)) self).

(** [_get_elapsed_ms()]. *)
Definition _get_elapsed_ms (self : recorder) : Z * recorder :=
  match start_time self with
  | None => (0, self)
  | Some start =>
      if start =? 0 then (0, self)
      else let '(now, self) := time self in (now - start, self)
  end.

(** [_add_event(event)]. *)
Definition _add_event (event : event) (self : recorder) : recorder :=
  if is_recording self && negb (paused self)
  then set_events (events self ++ [event]) self
  else self.

(** [_add_key_event(event_type, key_str, key_obj)]. *)
Definition _add_key_event (event_type key_str : string)
    (key_obj : option key) (self : recorder) : recorder :=
  let '(t, self) := _get_elapsed_ms self in
  _add_event (key_event event_type key_str key_obj t) self.

(** [start_recording()], with its return value. *)
Definition start_recording (self : recorder) : bool * recorder :=
  if is_recording self then (false, self)
  else
    let '(now, self) := time self in
    let self := set_start_time (Some now) self in
    let self := set_is_recording true self in
    let self := set_paused false self in
    let self := set_current_modifiers ∅ self in
    let self := set_active_modifiers no_modifiers self in
    let self := _add_event (new_event "start" 0) self in
    (true, self).

(** [pause_recording()]. *)
Definition pause_recording (self : recorder) : recorder :=
  if negb (is_recording self) then self
  else
    let self := set_paused (negb (paused self)) self in
    if paused self then
      let '(t, self) := _get_elapsed_ms self in
      _add_event (new_event "pause" t) self
    else
      let '(t, self) := _get_elapsed_ms self in
      _add_event (new_event "resume" t) self.

(** [stop_recording()], with its return value ([None] is Python's [None]). *)
Definition stop_recording (self : recorder) : option bool * recorder :=
  if negb (is_recording self) then (None, self)
  else
    let self :=
      foldl (λ self modifier, _add_key_event "up" modifier None self)
        self (set_order (current_modifiers self)) in
    let '(t, self) := _get_elapsed_ms self in
    let '(duration, self) := _get_elapsed_ms self in
    let self := _add_event (set_duration duration (new_event "stop" t)) self in
    let self := set_is_recording false self in
    let self := set_paused false self in
    let '(_, self) := _get_elapsed_ms self in
    (Some true, self).

(** [_on_key_press(key)], with its return value. *)
Definition _on_key_press (k : key) (self : recorder) : option bool * recorder :=
  if negb (is_recording self) || paused self then (None, self)
  else
    let key_str := _key_to_str k in
    if bool_decide (k = Key "esc") then
      let '(_, self) := stop_recording self in (Some false, self)
    else if bool_decide (k = Key "f1") then
      (None, pause_recording self)
    else if _is_modifier k then
      if bool_decide (key_str ∉ current_modifiers self) then
        let self :=
          set_current_modifiers ({[key_str]} ∪ current_modifiers self) self in
        let self :=
          set_active_modifiers
            (_update_modifier_state key_str true (active_modifiers self)) self in
        (None, _add_key_event "down" key_str (Some k) self)
      else (None, self)
    else
      let key_str :=
        match k with
        | KeyCode (Some (String _ _ as char)) _ =>
            if SHIFT (active_modifiers self) && isalpha char then upper char
            else if SHIFT (active_modifiers self) then get shift_map char char
            else char
        | _ => key_str
        end in
      (None, _add_key_event "down" key_str (Some k) self).

(** [_on_key_release(key)]. *)
Definition _on_key_release (k : key) (self : recorder) : recorder :=
  if negb (is_recording self) || paused self then self
  else
    let key_str := _key_to_str k in
    if _is_modifier k then
      if bool_decide (key_str ∈ current_modifiers self) then
        let self :=
          set_current_modifiers (current_modifiers self ∖ {[key_str]}) self in
        let self :=
          set_active_modifiers
            (_update_modifier_state key_str false (active_modifiers self)) self in
        _add_key_event "up" key_str (Some k) self
      else self
    else _add_key_event "up" key_str (Some k) self.

End WithEnvironment.

End Recorder.

(** ** Program renderer: the loop of [_generate_arduino_example] *)

Module Render.
Import PyStr.

(** [s.startswith(p)] and [s.endswith(p)]. *)
Definition startswith (p s : string) : bool := String.prefix p s.
Definition endswith (p s : string) : bool :=
  String.prefix (String.rev p) (String.rev s).

(** [s.lstrip(c)] and [s.strip(c)] for a one-character [c]. *)
Fixpoint lstrip (c : ascii) (s : string) : string :=
  match s with
  | EmptyString => EmptyString
  | String a s' => if bool_decide (a = c) then lstrip c s' else s
  end.
Definition strip (c : ascii) (s : string) : string :=
  String.rev (lstrip c (String.rev (lstrip c s))).

(** [k.startswith("'") and k.endswith("'")]. *)
Definition quoted (k : string) : bool := startswith "'" k && endswith "'" k.

(** The optional [delay(d);] line of an instruction. *)
Definition render_delay (ev : arduino_event) : list string :=
  let d := default 0 (a_delay ev) in
  if 0 <? d then ["  delay(" +:+ pretty d +:+ ");"] else [].

(** The [if typ == ...] chain: the statement of an instruction. *)
Definition render_call (ev : arduino_event) : list string :=
  let typ := a_type ev in
  if bool_decide (typ = Some "KEY_PRESS") then
    let k := default EmptyString (a_key ev) in
    if quoted k && Nat.leb 3 (String.length k) then
      let ch := strip "'" k in
      let esc := Compiler._escape_char ch in
      ["  Keyboard.write('" +:+ esc +:+ "');"]
    else ["  Keyboard.press(" +:+ k +:+ ");"]
  else if bool_decide (typ = Some "KEY_RELEASE") then
    let k := default EmptyString (a_key ev) in
    if negb (quoted k) then ["  Keyboard.release(" +:+ k +:+ ");"] else []
  else if bool_decide (typ = Some "MOUSE_MOVE") then
    let dx := default 0 (a_dx ev) in
    let dy := default 0 (a_dy ev) in
    ["  Mouse.move(" +:+ pretty dx +:+ ", " +:+ pretty dy +:+ ", 0);"]
  else if bool_decide (typ = Some "MOUSE_PRESS") then
    let btn := default "MOUSE_LEFT" (a_button ev) in
    ["  Mouse.press(" +:+ btn +:+ ");"]
  else if bool_decide (typ = Some "MOUSE_RELEASE") then
    let btn := default "MOUSE_LEFT" (a_button ev) in
    ["  Mouse.release(" +:+ btn +:+ ");"]
  else if bool_decide (typ = Some "MOUSE_SCROLL") then
    let amt := default 0 (a_amount ev) in
    ["  Mouse.move(0, 0, " +:+ pretty amt +:+ ");"]
  else ["  // Evento desconhecido: " +:+ default "None" typ].

(** One iteration of the loop [for ev in events]: the lines it appends. *)
Definition render_event (ev : arduino_event) : list string :=
  render_delay ev ++ render_call ev.

(** The lines that the loop appends between the two templates. *)
Definition render_lines (events : list arduino_event) : list string :=
  events ≫= render_event.

End Render.

(** ** Sessions: the recorder driven by its callers *)

Module Session.
Import Recorder.

(** What the menu and the keyboard listener do to the recorder. *)
Inductive action :=
  | Start                (* menu option 1: [start_recording] *)
  | Toggle               (* menu option 2: [pause_recording] *)
  | Stop                 (* menu option 3: [stop_recording] *)
  | Press (k : key)      (* listener: [_on_key_press] *)
  | Release (k : key).   (* listener: [_on_key_release] *)

Section WithEnvironment.
Variable clock : nat → Z.
Variable set_order : gset string → list string.

Definition step (self : recorder) (a : action) : recorder :=
  match a with
  | Start => (start_recording clock self).2
  | Toggle => pause_recording clock self
  | Stop => (stop_recording clock set_order self).2
  | Press k => (_on_key_press clock set_order k self).2
  | Release k => _on_key_release clock k self
  end.

(** The calls of [actions], one after the other. *)
Definition run (actions : list action) (self : recorder) : recorder :=
  foldl step self actions.

End WithEnvironment.

(** The elapsed times of a timeline, in order. *)
Definition times (events : list event) : list Z :=
  (λ ev, default 0 (e_t ev)) <$> events.

(** A clock that never goes back. *)
Definition monotone (clock : nat → Z) : Prop :=
  ∀ n m, (n ≤ m)%nat → clock n ≤ clock m.

(** The timeline of [s'] is that of [s] followed by events that satisfy
    [P]. *)
Definition appends (P : event → Prop) (s s' : recorder) : Prop :=
  ∃ l, events s' = events s ++ l ∧ Forall P l.

(** The reading of the elapsed time that the [n]-th reading of the clock
    gives in the session of [s]. *)
Definition reading (clock : nat → Z) (s : recorder) (n : nat) : Z :=
  match start_time s with
  | None => 0
  | Some start => if start =? 0 then 0 else clock n - start
  end.

(** No later reading of the elapsed time is below [t]. *)
Definition passed (clock : nat → Z) (s : recorder) (t : Z) : Prop :=
  ∀ n, (ticks s ≤ n)%nat → t ≤ reading clock s n.

(** The timeline is in the order of its elapsed times, which are all
    there, are not negative and lie in the past. *)
Definition in_order (clock : nat → Z) (s : recorder) : Prop :=
  Forall Saving.has_t (events s) ∧
  Sorted Z.le (0 :: times (events s)) ∧
  Forall (passed clock s) (times (events s)) ∧
  passed clock s 0.

(** Each flag that is set has a key of its class recorded as down. *)
Definition flags_backed (self : recorder) : Prop :=
  let m := active_modifiers self in
  let down := current_modifiers self in
  (SHIFT m = true → "SHIFT_LEFT" ∈ down ∨ "SHIFT_RIGHT" ∈ down) ∧
  (CTRL m = true → "CTRL_LEFT" ∈ down ∨ "CTRL_RIGHT" ∈ down) ∧
  (ALT m = true → "ALT_LEFT" ∈ down ∨ "ALT_RIGHT" ∈ down) ∧
  (GUI m = true → "GUI_LEFT" ∈ down ∨ "GUI_RIGHT" ∈ down).

End Session.

(** ** The mouse callbacks of the recorder *)

Module Mouse.
Import PyStr Recorder.

(** The fields of [EventRecorder] that only the mouse callbacks use.  The
    screen size is left out with the normalized positions it serves for;
    [last_move_time] is in milliseconds, like the clock. *)
Record pointer := Pointer {
  last_mouse_pos : Z * Z;
  last_move_time : Z;
  record_mouse_moves : bool;
  min_mouse_move : Z;
  mouse_move_interval : Z
}.

Definition set_last_mouse_pos (v : Z * Z) (p : pointer) : pointer :=
  Pointer v (last_move_time p) (record_mouse_moves p) (min_mouse_move p)
    (mouse_move_interval p).
Definition set_last_move_time (v : Z) (p : pointer) : pointer :=
  Pointer (last_mouse_pos p) v (record_mouse_moves p) (min_mouse_move p)
    (mouse_move_interval p).

(** The values that [__init__] gives these fields. *)
Definition init_pointer : pointer := Pointer (0, 0) 0 true 5 50.

(** The dict [button_map] of [_on_click], by member name of [Button]. *)
Definition button_map : gmap string string :=
  dict [ ("left", "LEFT"); ("right", "RIGHT"); ("middle", "MIDDLE") ].

(** [button_map.get(button, str(button))]. *)
Definition button_str (button : string) : string :=
  get button_map button ("Button." +:+ button).

Section WithEnvironment.
Variable clock : nat → Z.

(** [start_recording()], with the reset of [last_move_time] that the
    keyboard side of the recorder has no use for. *)
Definition start_recording (st : recorder * pointer)
  : bool * (recorder * pointer) :=
  let '(self, p) := st in
  let '(started, self) := Recorder.start_recording clock self in
  (started, (self, if started then set_last_move_time 0 p else p)).

(** [_on_click(x, y, button, pressed)]. *)
Definition _on_click (x y : Z) (button : string) (pressed : bool)
    (st : recorder * pointer) : recorder * pointer :=
  let '(self, p) := st in
  if negb (is_recording self) || paused self then (self, p)
  else
    let event_type := if pressed then "down" else "up" in
    let '(t, self) := _get_elapsed_ms clock self in
    let self :=
      _add_event (set_button (button_str button)
                    (new_event ("mouse_" +:+ event_type) t)) self in
    (self, set_last_mouse_pos (x, y) p).

(** [_on_move(x, y)]. *)
Definition _on_move (x y : Z) (st : recorder * pointer) : recorder * pointer :=
  let '(self, p) := st in
  if negb (is_recording self) || paused self || negb (record_mouse_moves p)
  then (self, p)
  else
    let '(current_time, self) := time clock self in
    let elapsed := current_time - last_move_time p in
    if elapsed <? mouse_move_interval p then (self, p)
    else
      let '(last_x, last_y) := last_mouse_pos p in
      let dx := x - last_x in
      let dy := y - last_y in
      if (Z.abs dx <? min_mouse_move p) && (Z.abs dy <? min_mouse_move p)
      then (self, p)
      else
        let p := set_last_move_time current_time p in
        let p := set_last_mouse_pos (x, y) p in
        let '(t, self) := _get_elapsed_ms clock self in
        (_add_event (set_dxdy dx dy (new_event "mouse_move" t)) self, p).

(** [_on_scroll(x, y, dx, dy)]. *)
Definition _on_scroll (x y dx dy : Z) (st : recorder * pointer)
  : recorder * pointer :=
  let '(self, p) := st in
  if negb (is_recording self) || paused self then (self, p)
  else
    let '(t, self) := _get_elapsed_ms clock self in
    (_add_event (set_dxdy dx dy (new_event "mouse_scroll" t)) self, p).

End WithEnvironment.

(** What the callers do to the recorder, the mouse listener included. *)
Inductive action :=
  | Keyboard (a : Session.action)
  | Click (x y : Z) (button : string) (pressed : bool)
  | Move (x y : Z)
  | Scroll (x y dx dy : Z).

Section Running.
Variable clock : nat → Z.
Variable set_order : gset string → list string.

Definition step (st : recorder * pointer) (a : action) : recorder * pointer :=
  match a with
  | Keyboard Session.Start => (start_recording clock st).2
  | Keyboard a => (Session.step clock set_order st.1 a, st.2)
  | Click x y button pressed => _on_click clock x y button pressed st
  | Move x y => _on_move clock x y st
  | Scroll x y dx dy => _on_scroll clock x y dx dy st
  end.

Definition run (actions : list action) (st : recorder * pointer)
  : recorder * pointer :=
  foldl step st actions.

End Running.

(** An action that is not a click. *)
Definition no_click (a : action) : Prop :=
  match a with
  | Click _ _ _ _ => False
  | _ => True
  end.

End Mouse.

(** ** Totals over instructions and events *)

Module Totals.

(** The horizontal and vertical displacement that a list of instructions
    moves the pointer by; an instruction without [dx] or [dy] moves it by
    nothing. *)
Definition sum_dx (evts : list arduino_event) : Z :=
  foldr (λ a acc, default 0 (a_dx a) + acc) 0 evts.
Definition sum_dy (evts : list arduino_event) : Z :=
  foldr (λ a acc, default 0 (a_dy a) + acc) 0 evts.

(** The same for the [mouse_move] events of a timeline. *)
Definition is_move (ev : event) : bool :=
  bool_decide (e_type ev = Some "mouse_move").
Definition moved_dx (events : list event) : Z :=
  foldr (λ ev acc, (if is_move ev then default 0 (e_dx ev) else 0) + acc)
    0 events.
Definition moved_dy (events : list event) : Z :=
  foldr (λ ev acc, (if is_move ev then default 0 (e_dy ev) else 0) + acc)
    0 events.

End Totals.

(** ** The end-to-end scenario of the specification *)

Module Scenario.

(** A recorded session: start at 0, ['a'] down at 100 and up at 150, a
    pointer move of 300 to the right at 400, stop at 450. *)
Definition timeline : list event :=
  [ {| e_type := Some "start"; e_key := None; e_t := Some 0;
       e_delay := None; e_modifier := None; e_scan_code := None;
       e_button := None; e_dx := None; e_dy := None; e_duration := None |};
    {| e_type := Some "key_down"; e_key := Some "a"; e_t := Some 100;
       e_delay := None; e_modifier := None; e_scan_code := None;
       e_button := None; e_dx := None; e_dy := None; e_duration := None |};
    {| e_type := Some "key_up"; e_key := Some "a"; e_t := Some 150;
       e_delay := None; e_modifier := None; e_scan_code := None;
       e_button := None; e_dx := None; e_dy := None; e_duration := None |};
    {| e_type := Some "mouse_move"; e_key := None; e_t := Some 400;
       e_delay := None; e_modifier := None; e_scan_code := None;
       e_button := None; e_dx := Some 300; e_dy := Some 0;
       e_duration := None |};
    {| e_type := Some "stop"; e_key := None; e_t := Some 450;
       e_delay := None; e_modifier := None; e_scan_code := None;
       e_button := None; e_dx := None; e_dy := None;
       e_duration := Some 450 |} ].

(** A saved timeline whose delays lie on both sides of the 10 ms threshold:
    100, 9, 10, -5 (an event stamped before the one it follows), 3 and 286. *)
Definition timed : list event :=
  [ {| e_type := Some "start"; e_key := None; e_t := Some 0;
       e_delay := Some 0; e_modifier := None; e_scan_code := None;
       e_button := None; e_dx := None; e_dy := None; e_duration := None |};
    {| e_type := Some "key_down"; e_key := Some "a"; e_t := Some 100;
       e_delay := Some 100; e_modifier := Some false;
       e_scan_code := Some (Some 65);
       e_button := None; e_dx := None; e_dy := None; e_duration := None |};
    {| e_type := Some "key_up"; e_key := Some "a"; e_t := Some 109;
       e_delay := Some 9; e_modifier := Some false;
       e_scan_code := Some (Some 65);
       e_button := None; e_dx := None; e_dy := None; e_duration := None |};
    {| e_type := Some "key_down"; e_key := Some "ENTER"; e_t := Some 119;
       e_delay := Some 10; e_modifier := Some false;
       e_scan_code := Some None;
       e_button := None; e_dx := None; e_dy := None; e_duration := None |};
    {| e_type := Some "key_up"; e_key := Some "ENTER"; e_t := Some 114;
       e_delay := Some (-5); e_modifier := Some false;
       e_scan_code := Some None;
       e_button := None; e_dx := None; e_dy := None; e_duration := None |};
    {| e_type := Some "mouse_down"; e_key := None; e_t := Some 117;
       e_delay := Some 3; e_modifier := None; e_scan_code := None;
       e_button := Some "LEFT"; e_dx := None; e_dy := None;
       e_duration := None |};
    {| e_type := Some "mouse_move"; e_key := None; e_t := Some 403;
       e_delay := Some 286; e_modifier := None; e_scan_code := None;
       e_button := None; e_dx := Some 300; e_dy := Some 0;
       e_duration := None |} ].

(** The instructions the specification expects for it, field by field. *)
Definition expected : list arduino_event :=
  [ {| a_delay := Some 100; a_type := Some "KEY_PRESS"; a_key := Some "'a'";
       a_dx := None; a_dy := None; a_button := None; a_amount := None |};
    {| a_delay := Some 50; a_type := Some "KEY_RELEASE"; a_key := Some "'a'";
       a_dx := None; a_dy := None; a_button := None; a_amount := None |};
    {| a_delay := Some 250; a_type := Some "MOUSE_MOVE"; a_key := None;
       a_dx := Some 127; a_dy := Some 0; a_button := None; a_amount := None |};
    {| a_delay := Some 0; a_type := Some "MOUSE_MOVE"; a_key := None;
       a_dx := Some 127; a_dy := Some 0; a_button := None; a_amount := None |};
    {| a_delay := Some 0; a_type := Some "MOUSE_MOVE"; a_key := None;
       a_dx := Some 46; a_dy := Some 0; a_button := None; a_amount := None |} ].

(** A clock that starts at one second and advances by 50 ms a reading. *)
Definition sample_clock (n : nat) : Z := 1000 + 50 * Z.of_nat n.

(** A session in which the left SHIFT key has been pressed. *)
Definition shift_held : Recorder.recorder :=
  (Recorder._on_key_press sample_clock elements (Recorder.Key "shift")
     (Recorder.start_recording sample_clock Recorder.init).2).2.

End Scenario.

(** * Properties *)

(** Decides the tests of the goal that are between constants. *)
Ltac eval_closed_decide :=
  repeat match goal with
  | |- context [bool_decide ?P] =>
      let b := eval vm_compute in (bool_decide P) in
      match b with
      | true => change (bool_decide P) with true
      | false => change (bool_decide P) with false
      end
  end.

(** ** The motion decomposer *)

Section MotionFacts.
Import Motion.

Lemma sumZ_app l1 l2 : sumZ (l1 ++ l2) = sumZ l1 + sumZ l2.
Proof. unfold sumZ. induction l1 as [|x l1 IH]; simpl; lia. Qed.

Lemma sumZ_replicate n x : sumZ (replicate n x) = Z.of_nat n * x.
Proof. unfold sumZ. induction n as [|n IH]; simpl replicate; simpl foldr; lia. Qed.

(** With a positive bound the loop finishes within [remaining] iterations
    and produces the greedy split of [remaining]. *)
Lemma calculate_steps_loop_greedy max_step direction fuel :
  0 < max_step →
  ∀ remaining, 0 ≤ remaining → (Z.to_nat remaining ≤ fuel)%nat →
  calculate_steps_loop fuel remaining max_step direction =
    Some (replicate (Z.to_nat (remaining / max_step)) (max_step * direction)
          ++ (if remaining mod max_step =? 0 then []
              else [remaining mod max_step * direction])).
Proof.
  intros Hm. induction fuel as [|fuel IH]; intros remaining Hr Hfuel.
  - assert (remaining = 0) as -> by lia. simpl.
    rewrite ?Zdiv_0_l, ?Zmod_0_l. reflexivity.
  - simpl. destruct (Z.gtb_spec remaining 0) as [Hpos|Hzero].
    + destruct (Z_lt_le_dec remaining max_step) as [Hlt|Hge].
      * rewrite Z.min_l by lia. rewrite Z.sub_diag.
        destruct fuel; simpl;
          rewrite Z.div_small, Z.mod_small by lia;
          destruct (Z.eqb_spec remaining 0); (lia || reflexivity).
      * rewrite Z.min_r by lia.
        rewrite IH by lia. simpl.
        assert (remaining mod max_step = (remaining - max_step) mod max_step)
          as Hmod.
        { replace remaining with ((remaining - max_step) + 1 * max_step) at 1
            by lia. apply Z.mod_add. lia. }
        assert (remaining / max_step = (remaining - max_step) / max_step + 1)
          as Hdiv.
        { replace remaining with ((remaining - max_step) + 1 * max_step) at 1
            by lia. apply Z.div_add. lia. }
        rewrite Hmod, Hdiv.
        assert (0 ≤ (remaining - max_step) / max_step)
          by (apply Z.div_pos; lia).
        rewrite Z2Nat.inj_add by lia.
        rewrite Nat.add_comm. reflexivity.
    + assert (remaining = 0) as -> by lia.
      rewrite ?Zdiv_0_l, ?Zmod_0_l. reflexivity.
Qed.

(** Without a positive bound the loop makes no progress: no amount of fuel
    lets it finish, which is the Python loop running forever. *)
Lemma calculate_steps_loop_diverges max_step direction fuel :
  max_step ≤ 0 →
  ∀ remaining, 0 < remaining →
  calculate_steps_loop fuel remaining max_step direction = None.
Proof.
  intros Hm. induction fuel as [|fuel IH]; intros remaining Hr; simpl;
    destruct (Z.gtb_spec remaining 0); try lia; [reflexivity|].
  rewrite IH; [reflexivity|lia].
Qed.

Lemma sgn_direction value :
  value ≠ 0 → (if value >? 0 then 1 else -1) = Z.sgn value.
Proof. intros. destruct (Z.gtb_spec value 0); lia. Qed.

(** [_calculate_steps] returns, and returns the greedy split. *)
Lemma calculate_steps_greedy value max_step :
  0 < max_step → _calculate_steps value max_step = Some (greedy value max_step).
Proof.
  intros Hm. unfold _calculate_steps, greedy.
  destruct (Z.eqb_spec value 0) as [->|Hne].
  - simpl. rewrite ?Zdiv_0_l, ?Zmod_0_l. reflexivity.
  - cbv zeta. rewrite sgn_direction by done.
    apply calculate_steps_loop_greedy; lia.
Qed.

Lemma greedy_sum value max_step :
  0 < max_step → sumZ (greedy value max_step) = value.
Proof.
  intros Hm. unfold greedy. rewrite sumZ_app, sumZ_replicate.
  assert (0 ≤ Z.abs value / max_step) by (apply Z.div_pos; lia).
  rewrite Z2Nat.id by done.
  pose proof (Z.div_mod (Z.abs value) max_step ltac:(lia)) as Hdm.
  destruct (Z.eqb_spec (Z.abs value mod max_step) 0) as [H0|Hn0];
    unfold sumZ; simpl; nia.
Qed.

Lemma greedy_bound value max_step :
  0 < max_step → Forall (λ s, Z.abs s ≤ max_step) (greedy value max_step).
Proof.
  intros Hm. unfold greedy. apply Forall_app. split.
  - apply Forall_replicate. lia.
  - pose proof (Z.mod_pos_bound (Z.abs value) max_step Hm).
    destruct (Z.eqb_spec (Z.abs value mod max_step) 0); constructor;
      [nia | constructor].
Qed.

(** Every step is nonzero and points the way of the input. *)
Lemma greedy_sign value max_step :
  0 < max_step →
  Forall (λ s, s ≠ 0 ∧ Z.sgn s = Z.sgn value) (greedy value max_step).
Proof.
  intros Hm. unfold greedy.
  destruct (Z.eq_dec value 0) as [->|Hne].
  { simpl. rewrite ?Zdiv_0_l, ?Zmod_0_l. constructor. }
  apply Forall_app. split.
  - apply Forall_replicate. split; [nia|].
    rewrite Z.sgn_mul, Z.sgn_sgn. rewrite (Z.sgn_pos max_step) by lia. lia.
  - pose proof (Z.mod_pos_bound (Z.abs value) max_step Hm).
    destruct (Z.eqb_spec (Z.abs value mod max_step) 0); constructor;
      [|constructor].
    split; [nia|].
    rewrite Z.sgn_mul, Z.sgn_sgn.
    rewrite (Z.sgn_pos (Z.abs value mod max_step)) by lia. lia.
Qed.

(** Reading a list position by position, with zeros past its end. *)
Lemma step_at_seq steps n :
  (length steps ≤ n)%nat →
  step_at steps <$> seq 0 n = steps ++ replicate (n - length steps) 0.
Proof.
  revert n. induction steps as [|s steps IH]; intros n Hn.
  - simpl. rewrite Nat.sub_0_r. clear Hn.
    change 0%nat with (0 + 0)%nat at 1. generalize (0 + 0)%nat.
    induction n as [|n IHn]; intros k; simpl; [done|].
    f_equal. apply IHn.
  - destruct n as [|n]; [simpl in Hn; lia|].
    simpl. f_equal. rewrite <- fmap_S_seq, <- list_fmap_compose.
    rewrite <- IH by (simpl in Hn; lia). reflexivity.
Qed.

Lemma sumZ_padded steps n :
  (length steps ≤ n)%nat → sumZ (step_at steps <$> seq 0 n) = sumZ steps.
Proof.
  intros. rewrite step_at_seq, sumZ_app, sumZ_replicate by done. lia.
Qed.

Lemma step_at_bound (P : Z → Prop) steps i :
  P 0 → Forall P steps → P (step_at steps i).
Proof.
  intros H0 Hall. unfold step_at.
  destruct (steps !! i) as [s|] eqn:Hs; simpl; [|done].
  eapply Forall_lookup_1; eauto.
Qed.

End MotionFacts.

Section SplitMouseMove.
Import Motion.

(** With a positive bound [_split_mouse_move] returns the positional pairing
    of the two greedy splits. *)
Lemma split_mouse_move_greedy dx dy max_step :
  0 < max_step →
  _split_mouse_move dx dy max_step =
    Some ((λ i, Move (step_at (greedy dx max_step) i)
                     (step_at (greedy dy max_step) i))
          <$> seq 0 (Nat.max (length (greedy dx max_step))
                             (length (greedy dy max_step)))).
Proof.
  intros Hm. unfold _split_mouse_move.
  rewrite !calculate_steps_greedy by done. reflexivity.
Qed.

(** C2: for every displacement and every positive bound, the decomposition
    returns; each axis is split greedily (300 gives 127, 127, 46); the two
    step lists are paired position by position, the shorter one padded with
    zeros, so the result is as long as the longer one; the steps of each
    axis add up to the displacement; no step exceeds the bound; and a zero
    displacement gives the empty sequence. *)
Theorem split_mouse_move_correct (dx dy max_step : Z) :
  0 < max_step →
  ∃ steps_x steps_y moves,
    _calculate_steps dx max_step = Some steps_x ∧ steps_x = greedy dx max_step ∧
    _calculate_steps dy max_step = Some steps_y ∧ steps_y = greedy dy max_step ∧
    _calculate_steps 300 127 = Some [127; 127; 46] ∧
    _split_mouse_move dx dy max_step = Some moves ∧
    length moves = Nat.max (length steps_x) (length steps_y) ∧
    (∀ i, (i < length moves)%nat →
          moves !! i = Some (Move (default 0 (steps_x !! i))
                                  (default 0 (steps_y !! i)))) ∧
    sumZ (m_dx <$> moves) = dx ∧ sumZ (m_dy <$> moves) = dy ∧
    Forall (λ m, Z.abs (m_dx m) ≤ max_step ∧ Z.abs (m_dy m) ≤ max_step) moves ∧
    (∀ any_step, _split_mouse_move 0 0 any_step = Some []).
Proof.
  intros Hm.
  eexists (greedy dx max_step), (greedy dy max_step), _.
  split; [by apply calculate_steps_greedy|]. split; [done|].
  split; [by apply calculate_steps_greedy|]. split; [done|].
  split; [reflexivity|].
  split; [by apply split_mouse_move_greedy|].
  split; [by rewrite length_fmap, length_seq|].
  split.
  { intros i Hi. rewrite length_fmap, length_seq in Hi.
    rewrite list_lookup_fmap, lookup_seq_lt by done. reflexivity. }
  split.
  { rewrite <- list_fmap_compose.
    erewrite (list_fmap_ext _ (step_at (greedy dx max_step))) by done.
    rewrite sumZ_padded by lia. by apply greedy_sum. }
  split.
  { rewrite <- list_fmap_compose.
    erewrite (list_fmap_ext _ (step_at (greedy dy max_step))) by done.
    rewrite sumZ_padded by lia. by apply greedy_sum. }
  split; [|reflexivity].
  apply Forall_fmap, Forall_forall. intros i _. simpl.
  split; apply (step_at_bound (λ s, Z.abs s ≤ max_step));
    (lia || by apply greedy_bound).
Qed.

Lemma split_mouse_move_correct_witness :
  ∃ steps_x steps_y moves,
    _calculate_steps 300 127 = Some steps_x ∧ steps_x = greedy 300 127 ∧
    _calculate_steps (-5) 127 = Some steps_y ∧ steps_y = greedy (-5) 127 ∧
    _calculate_steps 300 127 = Some [127; 127; 46] ∧
    _split_mouse_move 300 (-5) 127 = Some moves ∧
    length moves = Nat.max (length steps_x) (length steps_y) ∧
    (∀ i, (i < length moves)%nat →
          moves !! i = Some (Move (default 0 (steps_x !! i))
                                  (default 0 (steps_y !! i)))) ∧
    sumZ (m_dx <$> moves) = 300 ∧ sumZ (m_dy <$> moves) = -5 ∧
    Forall (λ m, Z.abs (m_dx m) ≤ 127 ∧ Z.abs (m_dy m) ≤ 127) moves ∧
    (∀ any_step, _split_mouse_move 0 0 any_step = Some []).
Proof. apply (split_mouse_move_correct 300 (-5) 127). lia. Defined.

(** C10: with a bound of at least one, every step of an axis is nonzero and
    has the sign of that axis's displacement, so no emitted pair is (0, 0). *)
Theorem split_mouse_move_no_null_move (dx dy max_step : Z) :
  1 ≤ max_step →
  ∃ steps_x steps_y moves,
    _calculate_steps dx max_step = Some steps_x ∧
    _calculate_steps dy max_step = Some steps_y ∧
    _split_mouse_move dx dy max_step = Some moves ∧
    Forall (λ s, s ≠ 0 ∧ Z.sgn s = Z.sgn dx) steps_x ∧
    Forall (λ s, s ≠ 0 ∧ Z.sgn s = Z.sgn dy) steps_y ∧
    Forall (λ m, m_dx m ≠ 0 ∨ m_dy m ≠ 0) moves.
Proof.
  intros Hm. assert (0 < max_step) as Hpos by lia.
  pose proof (greedy_sign dx max_step Hpos) as Hx.
  pose proof (greedy_sign dy max_step Hpos) as Hy.
  eexists (greedy dx max_step), (greedy dy max_step), _.
  split; [by apply calculate_steps_greedy|].
  split; [by apply calculate_steps_greedy|].
  split; [by apply split_mouse_move_greedy|].
  split; [done|]. split; [done|].
  apply Forall_fmap, Forall_forall. intros i Hi. simpl.
  apply elem_of_seq in Hi. unfold step_at.
  destruct (Nat.max_spec (length (greedy dx max_step))
                         (length (greedy dy max_step))) as [[_ Hmax]|[_ Hmax]];
    rewrite Hmax in Hi.
  - right. destruct (lookup_lt_is_Some_2 (greedy dy max_step) i) as [s Hs];
      [lia|]. rewrite Hs. simpl.
    by apply (Forall_lookup_1 _ _ _ _ Hy Hs).
  - left. destruct (lookup_lt_is_Some_2 (greedy dx max_step) i) as [s Hs];
      [lia|]. rewrite Hs. simpl.
    by apply (Forall_lookup_1 _ _ _ _ Hx Hs).
Qed.

Lemma split_mouse_move_no_null_move_witness :
  ∃ steps_x steps_y moves,
    _calculate_steps 300 1 = Some steps_x ∧
    _calculate_steps (-2) 1 = Some steps_y ∧
    _split_mouse_move 300 (-2) 1 = Some moves ∧
    Forall (λ s, s ≠ 0 ∧ Z.sgn s = Z.sgn 300) steps_x ∧
    Forall (λ s, s ≠ 0 ∧ Z.sgn s = Z.sgn (-2)) steps_y ∧
    Forall (λ m, m_dx m ≠ 0 ∨ m_dy m ≠ 0) moves.
Proof. apply (split_mouse_move_no_null_move 300 (-2) 1). lia. Defined.

End SplitMouseMove.

(** ** Finalize-time delays *)

Section SavingFacts.
Import Saving.

Lemma total_delay_cons ev l :
  total_delay (ev :: l) = default 0 (e_delay ev) + total_delay l.
Proof. reflexivity. Qed.

Lemma last_has_t ev events :
  Forall has_t (ev :: events) → is_Some (last (ev :: events) ≫= e_t).
Proof.
  intros Hall. destruct (last (ev :: events)) as [l|] eqn:Hl.
  - apply last_Some_elem_of in Hl.
    rewrite Forall_forall in Hall. exact (Hall _ Hl).
  - by apply last_None in Hl.
Qed.

(** The loop computes [with_delays], and ends with the elapsed time of the
    last event in [last_time]. *)
Lemma delays_loop_with_delays events :
  Forall has_t events →
  ∀ last_time acc,
    delays_loop events last_time acc =
      Ok (acc ++ with_delays last_time events,
          default last_time (last events ≫= e_t)).
Proof.
  induction 1 as [|ev events [t Ht] Hall IH]; intros last_time acc.
  - simpl. by rewrite app_nil_r.
  - simpl delays_loop. rewrite Ht, IH, <- app_assoc.
    simpl with_delays. rewrite Ht. simpl default at 2. do 2 f_equal.
    destruct events as [|ev' events]; [simpl; by rewrite Ht|].
    change (last (ev :: ev' :: events)) with (last (ev' :: events)).
    by destruct (last_has_t _ _ Hall) as [t' ->].
Qed.

(** The delays telescope. *)
Lemma with_delays_total events :
  Forall has_t events →
  ∀ last_time,
    total_delay (with_delays last_time events) =
      default last_time (last events ≫= e_t) - last_time.
Proof.
  induction 1 as [|ev events [t Ht] Hall IH]; intros last_time.
  - simpl. unfold total_delay. simpl. lia.
  - simpl with_delays. rewrite total_delay_cons, IH, Ht. simpl e_delay.
    simpl default at 1 2.
    destruct events as [|ev' events]; [simpl; rewrite Ht; simpl; lia|].
    change (last (ev :: ev' :: events)) with (last (ev' :: events)).
    destruct (last_has_t _ _ Hall) as [t' ->]. simpl. lia.
Qed.

Lemma with_delays_lookup events :
  ∀ last_time i ev,
    events !! i = Some ev →
    with_delays last_time events !! i =
      Some (set_delay
              (default 0 (e_t ev)
               - match i with O => last_time | _ => elapsed_before events i end)
              ev).
Proof.
  induction events as [|ev0 events IH]; intros last_time i ev Hi; [done|].
  destruct i as [|i]; simpl in *.
  - by inversion Hi.
  - rewrite (IH _ _ _ Hi). by destruct i as [|i].
Qed.

(** C3: on a timeline that is not empty and whose events all carry their
    elapsed time, the delay computation returns; every event gets its elapsed
    time minus that of the event before it (the first one its own elapsed
    time); and the delays add up to the elapsed time of the last event. *)
Theorem delays_sum_to_last_elapsed (events : list event) (ev_last : event)
    (t_last : Z) :
  Forall has_t events →
  last events = Some ev_last →
  e_t ev_last = Some t_last →
  ∃ events_with_delays,
    save_recording events = Ok (events_with_delays, t_last) ∧
    length events_with_delays = length events ∧
    (∀ i ev t, events !! i = Some ev → e_t ev = Some t →
       events_with_delays !! i =
         Some (set_delay (t - elapsed_before events i) ev)) ∧
    total_delay events_with_delays = t_last.
Proof.
  intros Hall Hlast Ht.
  exists (with_delays 0 events). split; [|split; [|split]].
  - unfold save_recording. destruct events as [|ev events]; [done|].
    rewrite delays_loop_with_delays, Hlast by done. simpl. by rewrite Ht.
  - clear. generalize 0. induction events as [|ev events IH]; intros z;
      simpl; [done|]. by rewrite IH.
  - intros i ev t Hi Hev. rewrite (with_delays_lookup _ _ _ _ Hi), Hev.
    by destruct i.
  - rewrite with_delays_total, Hlast by done. simpl. rewrite Ht. simpl. lia.
Qed.

Lemma delays_sum_to_last_elapsed_witness :
  ∃ events_with_delays,
    save_recording Scenario.timeline = Ok (events_with_delays, 450) ∧
    length events_with_delays = length Scenario.timeline ∧
    (∀ i ev t, Scenario.timeline !! i = Some ev → e_t ev = Some t →
       events_with_delays !! i =
         Some (set_delay (t - elapsed_before Scenario.timeline i) ev)) ∧
    total_delay events_with_delays = 450.
Proof.
  apply (delays_sum_to_last_elapsed Scenario.timeline
           (set_duration 450 (new_event "stop" 450)) 450).
  - repeat constructor; by eexists.
  - reflexivity.
  - reflexivity.
Defined.

End SavingFacts.

(** ** The instruction compiler *)

Section CompilerFacts.
Import PyStr Compiler.

(** Instructions are only ever appended: the loop started on some
    [arduino_events] does what it does from the empty lists, after them. *)
Lemma export_loop_acc events :
  ∀ acc printed,
    export_loop events acc printed =
      ('(evts, warns) ←! export_loop events [] [];
       Ok (acc ++ evts, printed ++ warns)).
Proof.
  induction events as [|ev events IH]; intros acc printed; simpl.
  - by rewrite !app_nil_r.
  - destruct (export_event ev) as [[evts warns]|f]; simpl; [|done].
    rewrite (IH (acc ++ evts)), (IH evts). 
    destruct (export_loop events [] []) as [[evts' warns']|f]; simpl; [|done].
    by rewrite !app_assoc.
Qed.

Lemma export_loop_cons ev events :
  export_loop (ev :: events) [] [] =
    ('(evts, warns) ←! export_event ev;
     '(evts', warns') ←! export_loop events [] [];
     Ok (evts ++ evts', warns ++ warns')).
Proof.
  simpl. destruct (export_event ev) as [[evts warns]|f]; simpl; [|done].
  apply export_loop_acc.
Qed.

Lemma export_loop_app events1 events2 :
  export_loop (events1 ++ events2) [] [] =
    ('(evts, warns) ←! export_loop events1 [] [];
     '(evts', warns') ←! export_loop events2 [] [];
     Ok (evts ++ evts', warns ++ warns')).
Proof.
  induction events1 as [|ev events1 IH].
  - simpl. by destruct (export_loop events2 [] []) as [[??]|?].
  - rewrite <- app_comm_cons, !export_loop_cons, IH.
    destruct (export_event ev) as [[evts warns]|f]; simpl; [|done].
    destruct (export_loop events1 [] []) as [[evts1 warns1]|f]; simpl; [|done].
    destruct (export_loop events2 [] []) as [[evts2 warns2]|f]; simpl; [|done].
    by rewrite !app_assoc.
Qed.

(** No event makes an iteration fail: the only loop inside, the splitting of
    a move, runs with the positive bound 127. *)
Lemma export_event_total ev : ∃ evts warns, export_event ev = Ok (evts, warns).
Proof.
  unfold export_event.
  repeat (case_bool_decide || case_match); simpl; eauto.
  all: rewrite split_mouse_move_greedy in * by lia; simplify_eq; simpl; eauto.
Qed.

(** The compiler never aborts. *)
Lemma export_loop_total events :
  ∃ evts warns, export_loop events [] [] = Ok (evts, warns).
Proof.
  induction events as [|ev events (evts' & warns' & IH)]; [by eexists _, _|].
  destruct (export_event_total ev) as (evts & warns & Hev).
  rewrite export_loop_cons, Hev, IH. simpl. eauto.
Qed.

(** An event in the middle of a timeline contributes what its own iteration
    appends, between the contributions of the events before and after it. *)
Lemma export_in_context pre ev post mid wmid :
  export_event ev = Ok (mid, wmid) →
  ∃ before wbefore after wafter,
    export_loop pre [] [] = Ok (before, wbefore) ∧
    export_loop post [] [] = Ok (after, wafter) ∧
    export_for_arduino (pre ++ ev :: post) =
      Ok (optimize_delay <$> (before ++ mid ++ after),
          wbefore ++ wmid ++ wafter).
Proof.
  intros Hev.
  destruct (export_loop_total pre) as (before & wbefore & Hpre).
  destruct (export_loop_total post) as (after & wafter & Hpost).
  exists before, wbefore, after, wafter. split; [done|]. split; [done|].
  unfold export_for_arduino.
  destruct (pre ++ ev :: post) as [|e l] eqn:Heq;
    [by destruct pre|]. rewrite <- Heq.
  rewrite export_loop_app, export_loop_cons, Hpre, Hev, Hpost. reflexivity.
Qed.

(** The keys of the table are names of several characters, and its
    values are not empty. *)
Lemma key_map_entry key code :
  key_map !! key = Some code → len_is_1 key = false ∧ truthy (Some code) = true.
Proof.
  intros Hk. apply elem_of_map_to_list in Hk.
  assert (Forall (λ kv, len_is_1 kv.1 = false ∧ truthy (Some kv.2) = true)
            (map_to_list key_map)) as Hall
    by (vm_compute; repeat constructor).
  rewrite Forall_forall in Hall. exact (Hall _ Hk).
Qed.

(** C7: a key event whose key is in the keycode table compiles to an
    instruction whose [key] is that keycode; one whose key is not in the
    table but is a single character compiles to an instruction whose [key]
    is the quoted, escaped character; any other key event gives no
    instruction and one warning.  In each case the events before and after
    it compile as they would alone: the compilation goes on and returns,
    and the instruction is in the result between theirs, with its key, its
    type and its delay after the post-pass. *)
Theorem key_event_compiles (pre post : list event) (ev : event)
    (etype : string) :
  e_type ev = Some etype →
  etype ∈ ["key_down"; "key_up"] →
  let key := default EmptyString (e_key ev) in
  let delay := default 0 (e_delay ev) in
  let typ := if bool_decide (etype = "key_down")
             then "KEY_PRESS" else "KEY_RELEASE" in
  let carried :=
    match key_map !! key with
    | Some code => Some code
    | None => if len_is_1 key then Some ("'" +:+ _escape_char key +:+ "'")
              else None
    end in
  let instr d k :=
    {| a_delay := Some d; a_type := Some typ; a_key := Some k;
       a_dx := None; a_dy := None; a_button := None; a_amount := None |} in
  ∃ mid wmid out_mid,
    match carried with
    | Some k => mid = [instr delay k] ∧ wmid = [] ∧
                out_mid = [instr (if delay <? 10 then 0 else delay) k]
    | None => mid = [] ∧ wmid = [UnmappedKey key] ∧ out_mid = []
    end ∧
    export_event ev = Ok (mid, wmid) ∧
    ∃ before wbefore after wafter,
      export_loop pre [] [] = Ok (before, wbefore) ∧
      export_loop post [] [] = Ok (after, wafter) ∧
      export_for_arduino (pre ++ ev :: post) =
        Ok ((optimize_delay <$> before) ++ out_mid
            ++ (optimize_delay <$> after),
            wbefore ++ wmid ++ wafter).
Proof.
  intros Hty Hin key delay typ carried instr.
  assert (export_event ev =
            Ok (match carried with Some k => [instr delay k] | None => [] end,
                match carried with Some k => [] | None => [UnmappedKey key] end))
    as Hev.
  { unfold export_event. rewrite Hty. simpl default.
    rewrite bool_decide_eq_true_2 by done.
    fold key delay typ. unfold _to_arduino_keycode. subst carried.
    destruct (key_map !! key) as [code|] eqn:Hk.
    - destruct (key_map_entry _ _ Hk) as [-> Htruthy].
      by rewrite Htruthy.
    - by destruct (len_is_1 key) eqn:Hlen. }
  destruct (export_in_context pre ev post _ _ Hev)
    as (before & wbefore & after & wafter & Hpre & Hpost & Hexport).
  rewrite !fmap_app in Hexport.
  destruct carried as [k|].
  - exists [instr delay k], [], [instr (if delay <? 10 then 0 else delay) k].
    split; [done|]. split; [done|].
    exists before, wbefore, after, wafter. split; [done|]. split; [done|].
    rewrite Hexport. do 3 f_equal. unfold optimize_delay. simpl.
    by destruct (delay <? 10).
  - exists [], [UnmappedKey key], []. split; [done|]. split; [done|].
    by exists before, wbefore, after, wafter.
Qed.

Lemma key_event_compiles_witness :
  let ev := Event (Some "key_down") (Some "ENTER") (Some 100) (Some 100)
              None None None None None None in
  let pre := [new_event "start" 0] in
  let post := [Event (Some "key_up") (Some "KEYCODE_65") (Some 105) (Some 5)
                 None None None None None None] in
  ∃ mid wmid out_mid,
    (mid = [ {| a_delay := Some 100; a_type := Some "KEY_PRESS";
                a_key := Some "KEY_RETURN"; a_dx := None; a_dy := None;
                a_button := None; a_amount := None |} ] ∧
     wmid = [] ∧
     out_mid = [ {| a_delay := Some 100; a_type := Some "KEY_PRESS";
                    a_key := Some "KEY_RETURN"; a_dx := None; a_dy := None;
                    a_button := None; a_amount := None |} ]) ∧
    export_event ev = Ok (mid, wmid) ∧
    ∃ before wbefore after wafter,
      export_loop pre [] [] = Ok (before, wbefore) ∧
      export_loop post [] [] = Ok (after, wafter) ∧
      export_for_arduino (pre ++ ev :: post) =
        Ok ((optimize_delay <$> before) ++ out_mid
            ++ (optimize_delay <$> after),
            wbefore ++ wmid ++ wafter).
Proof.
  apply (key_event_compiles [new_event "start" 0]
           [Event (Some "key_up") (Some "KEYCODE_65") (Some 105) (Some 5)
              None None None None None None]
           (Event (Some "key_down") (Some "ENTER") (Some 100) (Some 100)
              None None None None None None) "key_down").
  - reflexivity.
  - by left.
Defined.

(** C9: a scroll event compiles to one [MOUSE_SCROLL] instruction whose
    [amount] is three times the vertical delta, and to no instruction at all
    when that amount is zero; the events around it compile as they would
    alone, and the instruction is in the result between theirs, with its
    amount and its delay after the post-pass. *)
Theorem scroll_event_compiles (pre post : list event) (ev : event) :
  e_type ev = Some "mouse_scroll" →
  let dy := default 0 (e_dy ev) in
  let delay := default 0 (e_delay ev) in
  let amount := dy * 3 in
  let instr d :=
    {| a_delay := Some d; a_type := Some "MOUSE_SCROLL"; a_key := None;
       a_dx := None; a_dy := None; a_button := None;
       a_amount := Some amount |} in
  ∃ mid out_mid,
    (amount ≠ 0 →
       mid = [instr delay] ∧
       out_mid = [instr (if delay <? 10 then 0 else delay)]) ∧
    (amount = 0 → mid = [] ∧ out_mid = []) ∧
    export_event ev = Ok (mid, []) ∧
    ∃ before wbefore after wafter,
      export_loop pre [] [] = Ok (before, wbefore) ∧
      export_loop post [] [] = Ok (after, wafter) ∧
      export_for_arduino (pre ++ ev :: post) =
        Ok ((optimize_delay <$> before) ++ out_mid
            ++ (optimize_delay <$> after),
            wbefore ++ [] ++ wafter).
Proof.
  intros Hty dy delay amount instr.
  assert (export_event ev =
            Ok (if bool_decide (dy ≠ 0) then [instr delay] else [], [])) as Hev.
  { unfold export_event. rewrite Hty. simpl default.
    eval_closed_decide. simpl String.prefix. cbv iota.
    fold dy delay amount. by destruct (bool_decide (dy ≠ 0)). }
  destruct (export_in_context pre ev post _ _ Hev)
    as (before & wbefore & after & wafter & Hpre & Hpost & Hexport).
  rewrite !fmap_app in Hexport.
  exists (if bool_decide (dy ≠ 0) then [instr delay] else []),
         (if bool_decide (dy ≠ 0)
          then [instr (if delay <? 10 then 0 else delay)] else []).
  split; [|split; [|split; [exact Hev|]]].
  - intros Hne. rewrite !bool_decide_eq_true_2; [done|..];
      unfold amount in Hne; lia.
  - intros Hz. rewrite !bool_decide_eq_false_2; [done|..];
      unfold amount in Hz; lia.
  - exists before, wbefore, after, wafter. split; [done|]. split; [done|].
    rewrite Hexport. do 3 f_equal. case_bool_decide; [|done].
    simpl. unfold optimize_delay. simpl. by destruct (delay <? 10).
Qed.

Lemma scroll_event_compiles_witness :
  let ev := Event (Some "mouse_scroll") None (Some 700) (Some 40)
              None None None (Some 0) (Some (-2)) None in
  let pre := [new_event "start" 0] in
  let post := [new_event "stop" 900] in
  let instr :=
    {| a_delay := Some 40; a_type := Some "MOUSE_SCROLL"; a_key := None;
       a_dx := None; a_dy := None; a_button := None;
       a_amount := Some (-6) |} in
  ∃ mid out_mid,
    (-6 ≠ 0 → mid = [instr] ∧ out_mid = [instr]) ∧
    (-6 = 0 → mid = [] ∧ out_mid = []) ∧
    export_event ev = Ok (mid, []) ∧
    ∃ before wbefore after wafter,
      export_loop pre [] [] = Ok (before, wbefore) ∧
      export_loop post [] [] = Ok (after, wafter) ∧
      export_for_arduino (pre ++ ev :: post) =
        Ok ((optimize_delay <$> before) ++ out_mid
            ++ (optimize_delay <$> after),
            wbefore ++ [] ++ wafter).
Proof.
  apply (scroll_event_compiles [new_event "start" 0] [new_event "stop" 900]
           (Event (Some "mouse_scroll") None (Some 700) (Some 40)
              None None None (Some 0) (Some (-2)) None)).
  reflexivity.
Defined.

Lemma move_events_delay moves :
  ∀ first delay,
    Forall (λ a, is_Some (a_delay a)) (move_events moves first delay).
Proof.
  induction moves as [|m moves IH]; intros first delay; simpl;
    constructor; [by eexists|apply IH].
Qed.

(** Every instruction is built with a delay. *)
Lemma export_event_delay ev evts warns :
  export_event ev = Ok (evts, warns) →
  Forall (λ a, is_Some (a_delay a)) evts.
Proof.
  unfold export_event.
  repeat (case_bool_decide || case_match); simpl; intros Heq;
    simplify_eq; repeat constructor; try by eexists.
  all: rewrite split_mouse_move_greedy in * by lia; simplify_eq; simpl in *;
    simplify_eq; apply move_events_delay.
Qed.

Lemma export_loop_delay events :
  ∀ evts warns,
    export_loop events [] [] = Ok (evts, warns) →
    Forall (λ a, is_Some (a_delay a)) evts.
Proof.
  induction events as [|ev events IH]; intros evts warns Hloop.
  - simpl in Hloop. simplify_eq. constructor.
  - rewrite export_loop_cons in Hloop.
    destruct (export_event ev) as [[evts1 warns1]|] eqn:Hev; [|done].
    destruct (export_loop events [] []) as [[evts2 warns2]|] eqn:Hl; [|done].
    simpl in Hloop. simplify_eq. apply Forall_app. split.
    + by eapply export_event_delay.
    + by eapply IH.
Qed.

(** C8: the post-pass keeps the instructions in place and touches nothing
    but their delay; an instruction built with a delay from 0 up to 9 ends
    with delay 0, and one built with a delay of 10 or more keeps it. *)
Theorem delay_post_pass (events : list event)
    (arduino_events : list arduino_event) (printed : list diagnostic) :
  events ≠ [] →
  export_loop events [] [] = Ok (arduino_events, printed) →
  ∃ out,
    export_for_arduino events = Ok (out, printed) ∧
    length out = length arduino_events ∧
    ∀ i ev, arduino_events !! i = Some ev →
      ∃ d ev',
        a_delay ev = Some d ∧ out !! i = Some ev' ∧
        (0 ≤ d < 10 → a_delay ev' = Some 0) ∧
        (10 ≤ d → a_delay ev' = Some d) ∧
        a_type ev' = a_type ev ∧ a_key ev' = a_key ev ∧
        a_dx ev' = a_dx ev ∧ a_dy ev' = a_dy ev ∧
        a_button ev' = a_button ev ∧ a_amount ev' = a_amount ev.
Proof.
  intros Hne Hloop. exists (optimize_delay <$> arduino_events).
  split; [|split].
  - unfold export_for_arduino. destruct events; [done|]. by rewrite Hloop.
  - apply length_fmap.
  - intros i ev Hi.
    pose proof (export_loop_delay _ _ _ Hloop) as Hall.
    destruct (Forall_lookup_1 _ _ _ _ Hall Hi) as [d Hd].
    exists d, (optimize_delay ev). split; [done|].
    rewrite list_lookup_fmap, Hi. split; [done|].
    unfold optimize_delay. rewrite Hd. simpl.
    destruct (Z.ltb_spec d 10); simpl; repeat split; (done || lia).
Qed.

Lemma delay_post_pass_witness :
  let events :=
    [ Event (Some "key_down") (Some "a") (Some 9) (Some 9)
        None None None None None None;
      Event (Some "key_up") (Some "a") (Some 19) (Some 10)
        None None None None None None ] in
  let arduino_events :=
    [ {| a_delay := Some 9; a_type := Some "KEY_PRESS"; a_key := Some "'a'";
         a_dx := None; a_dy := None; a_button := None; a_amount := None |};
      {| a_delay := Some 10; a_type := Some "KEY_RELEASE"; a_key := Some "'a'";
         a_dx := None; a_dy := None; a_button := None; a_amount := None |} ] in
  ∃ out,
    export_for_arduino events = Ok (out, []) ∧
    length out = length arduino_events ∧
    ∀ i ev, arduino_events !! i = Some ev →
      ∃ d ev',
        a_delay ev = Some d ∧ out !! i = Some ev' ∧
        (0 ≤ d < 10 → a_delay ev' = Some 0) ∧
        (10 ≤ d → a_delay ev' = Some d) ∧
        a_type ev' = a_type ev ∧ a_key ev' = a_key ev ∧
        a_dx ev' = a_dx ev ∧ a_dy ev' = a_dy ev ∧
        a_button ev' = a_button ev ∧ a_amount ev' = a_amount ev.
Proof.
  apply (delay_post_pass
           [ Event (Some "key_down") (Some "a") (Some 9) (Some 9)
               None None None None None None;
             Event (Some "key_up") (Some "a") (Some 19) (Some 10)
               None None None None None None ]
           [ {| a_delay := Some 9; a_type := Some "KEY_PRESS";
                a_key := Some "'a'"; a_dx := None; a_dy := None;
                a_button := None; a_amount := None |};
             {| a_delay := Some 10; a_type := Some "KEY_RELEASE";
                a_key := Some "'a'"; a_dx := None; a_dy := None;
                a_button := None; a_amount := None |} ]
           []).
  - discriminate.
  - vm_compute. reflexivity.
Defined.

(** C1: the scenario timeline, with the delays that [save_recording] gives
    it (0, 100, 50, 250 and 50), compiles to exactly five instructions,
    without any warning: a press of the literal ['a'] with delay 100, a
    release of it with delay 50, and three moves of 127, 127 and 46 to the
    right with delays 250, 0 and 0; the start and stop markers leave no
    instruction. *)
Theorem scenario_compiles :
  ∃ events_with_delays,
    Saving.save_recording Scenario.timeline = Ok (events_with_delays, 450) ∧
    e_delay <$> events_with_delays =
      [Some 0; Some 100; Some 50; Some 250; Some 50] ∧
    export_for_arduino events_with_delays = Ok (Scenario.expected, []) ∧
    a_delay <$> Scenario.expected =
      [Some 100; Some 50; Some 250; Some 0; Some 0] ∧
    a_type <$> Scenario.expected =
      [Some "KEY_PRESS"; Some "KEY_RELEASE"; Some "MOUSE_MOVE";
       Some "MOUSE_MOVE"; Some "MOUSE_MOVE"] ∧
    a_key <$> Scenario.expected = [Some "'a'"; Some "'a'"; None; None; None] ∧
    a_dx <$> Scenario.expected = [None; None; Some 127; Some 127; Some 46] ∧
    a_dy <$> Scenario.expected = [None; None; Some 0; Some 0; Some 0].
Proof. eexists. repeat split; vm_compute; reflexivity. Qed.

End CompilerFacts.

(** ** The timeline recorder *)

Section RecorderFacts.
Import PyStr Recorder.

Variable clock : nat → Z.

Lemma same_session_refl s : same_session s s.
Proof. by repeat split. Qed.

Lemma same_session_trans s1 s2 s3 :
  same_session s1 s2 → same_session s2 s3 → same_session s1 s3.
Proof. unfold same_session. intros (?&?&?&?&?) (?&?&?&?&?). repeat split; congruence. Qed.

(** Reading the elapsed time touches nothing but the clock. *)
Lemma get_elapsed_ms_session self :
  same_session self (_get_elapsed_ms clock self).2 ∧
  events (_get_elapsed_ms clock self).2 = events self.
Proof.
  unfold _get_elapsed_ms. destruct (start_time self) as [start|];
    [destruct (start =? 0)|]; by repeat split.
Qed.

(** While recording and not paused, [_add_event] appends. *)
Lemma add_event_recording ev self :
  is_recording self = true → paused self = false →
  same_session self (_add_event ev self) ∧
  events (_add_event ev self) = events self ++ [ev].
Proof. unfold _add_event. intros -> ->. by repeat split. Qed.

(** While paused, [_add_event] drops the event, whatever it is. *)
Lemma add_event_paused ev self :
  paused self = true → _add_event ev self = self.
Proof. unfold _add_event. intros ->. by rewrite andb_false_r. Qed.

Lemma add_key_event_recording event_type key_str key_obj self :
  is_recording self = true → paused self = false →
  same_session self (_add_key_event clock event_type key_str key_obj self) ∧
  ∃ t, events (_add_key_event clock event_type key_str key_obj self) =
         events self ++ [key_event event_type key_str key_obj t].
Proof.
  intros Hrec Hpaused. unfold _add_key_event.
  destruct (get_elapsed_ms_session self) as [Hsame Hev].
  destruct (_get_elapsed_ms clock self) as [t self'].
  simpl in Hsame, Hev. destruct Hsame as (?&Hrec'&Hpaused'&?&?).
  destruct (add_event_recording (key_event event_type key_str key_obj t) self')
    as [Hsame' Hev']; [congruence..|].
  split.
  - eapply same_session_trans; [|exact Hsame']. by repeat split.
  - exists t. by rewrite Hev', Hev.
Qed.

Lemma add_key_event_paused event_type key_str key_obj self :
  paused self = true →
  same_session self (_add_key_event clock event_type key_str key_obj self) ∧
  events (_add_key_event clock event_type key_str key_obj self) = events self.
Proof.
  intros Hpaused. unfold _add_key_event.
  destruct (get_elapsed_ms_session self) as [Hsame Hev].
  destruct (_get_elapsed_ms clock self) as [t self'].
  simpl in Hsame, Hev. destruct Hsame as (?&?&Hpaused'&?&?).
  rewrite add_event_paused by congruence. by repeat split.
Qed.

(** Pausing sets the flag before it hands the marker to [_add_event], which
    therefore drops it: the timeline does not change. *)
Lemma pause_recording_drops_marker self :
  is_recording self = true → paused self = false →
  paused (pause_recording clock self) = true ∧
  events (pause_recording clock self) = events self.
Proof.
  intros Hrec Hpaused. unfold pause_recording. rewrite Hrec, Hpaused. simpl.
  destruct (get_elapsed_ms_session (set_paused true self)) as [Hsame Hev].
  destruct (_get_elapsed_ms clock (set_paused true self)) as [t self'].
  simpl in Hsame, Hev. destruct Hsame as (?&?&Hpaused'&?&?).
  rewrite add_event_paused by done. by split.
Qed.

(** A toggle touches neither the recording flag nor the modifiers that are
    recorded as down. *)
Lemma pause_recording_keeps self :
  is_recording (pause_recording clock self) = is_recording self ∧
  current_modifiers (pause_recording clock self) = current_modifiers self.
Proof.
  unfold pause_recording. destruct (is_recording self) eqn:Hrec; [|done].
  simpl negb. cbv iota.
  set (self1 := set_paused (negb (paused self)) self).
  assert (is_recording self1 = true ∧
          current_modifiers self1 = current_modifiers self) as [Hrec1 Hmods1]
    by done.
  destruct (get_elapsed_ms_session self1) as [(?&Hrec2&?&Hmods2&?) _].
  destruct (_get_elapsed_ms clock self1) as [t self2]. simpl in *.
  unfold _add_event.
  destruct (negb (paused self));
    destruct (is_recording self2 && negb (paused self2));
    simpl; split; congruence.
Qed.

(** Resuming clears the flag first, so the resume marker is appended. *)
Lemma pause_recording_appends_resume self :
  is_recording self = true → paused self = true →
  paused (pause_recording clock self) = false ∧
  ∃ t, events (pause_recording clock self) =
         events self ++ [new_event "resume" t].
Proof.
  intros Hrec Hpaused. unfold pause_recording. rewrite Hrec, Hpaused. simpl.
  destruct (get_elapsed_ms_session (set_paused false self)) as [Hsame Hev].
  destruct (_get_elapsed_ms clock (set_paused false self)) as [t self'].
  destruct Hsame as (?&Hrec'&Hpaused'&?&?). simpl in *.
  destruct (add_event_recording (new_event "resume" t) self')
    as [(?&?&Hp&?&?) Hev']; [congruence..|].
  split; [congruence|]. exists t. by rewrite Hev', Hev.
Qed.

Variable set_order : gset string → list string.

(** The key-up events that the loop of [stop_recording] appends while the
    session is not paused: one for each modifier, in the order of the
    iteration. *)
Lemma release_loop_recording modifiers :
  ∀ self,
    is_recording self = true → paused self = false →
    let self' := foldl (λ self modifier,
                          _add_key_event clock "up" modifier None self)
                   self modifiers in
    same_session self self' ∧
    ∃ ups, events self' = events self ++ ups ∧
           Forall2 (λ modifier ev, ∃ t, ev = key_event "up" modifier None t)
             modifiers ups.
Proof.
  induction modifiers as [|m modifiers IH]; intros self Hrec Hpaused; simpl.
  - split; [apply same_session_refl|]. exists []. by rewrite app_nil_r.
  - destruct (add_key_event_recording "up" m None self Hrec Hpaused)
      as [Hsame [t Hev]].
    pose proof Hsame as (?&?&?&?&?).
    destruct (IH (_add_key_event clock "up" m None self))
      as [Hsame' (ups & Hev' & Hups)]; [congruence..|].
    split; [by eapply same_session_trans|].
    exists (key_event "up" m None t :: ups). split.
    + by rewrite Hev', Hev, <- app_assoc.
    + constructor; [by exists t|done].
Qed.

(** While the session is paused the same loop appends nothing. *)
Lemma release_loop_paused modifiers :
  ∀ self,
    paused self = true →
    let self' := foldl (λ self modifier,
                          _add_key_event clock "up" modifier None self)
                   self modifiers in
    same_session self self' ∧ events self' = events self.
Proof.
  induction modifiers as [|m modifiers IH]; intros self Hpaused; simpl.
  - split; [apply same_session_refl|done].
  - destruct (add_key_event_paused "up" m None self Hpaused) as [Hsame Hev].
    pose proof Hsame as (?&?&?&?&?).
    destruct (IH (_add_key_event clock "up" m None self)) as [Hsame' Hev'];
      [congruence|].
    split; [by eapply same_session_trans|congruence].
Qed.

(** Stopping a session that is not paused releases every modifier still
    down, then appends the stop marker. *)
Lemma stop_recording_releases self modifier :
  is_recording self = true → paused self = false →
  set_order (current_modifiers self) ≡ₚ elements (current_modifiers self) →
  modifier ∈ current_modifiers self →
  ∃ ups1 t ups2 t_stop duration,
    events (stop_recording clock set_order self).2 =
      events self ++ ups1 ++ [key_event "up" modifier None t] ++ ups2
      ++ [set_duration duration (new_event "stop" t_stop)].
Proof.
  intros Hrec Hpaused Horder Hin. unfold stop_recording. rewrite Hrec. simpl.
  destruct (release_loop_recording (set_order (current_modifiers self))
              self Hrec Hpaused) as [(?&Hrec1&Hpaused1&?&?) (ups & Hev & Hups)].
  set (self1 := foldl _ self _) in *.
  destruct (get_elapsed_ms_session self1) as [(?&Hrec2&Hpaused2&?&?) Hev2].
  destruct (_get_elapsed_ms clock self1) as [t_stop self2]. simpl in *.
  destruct (get_elapsed_ms_session self2) as [(?&Hrec3&Hpaused3&?&?) Hev3].
  destruct (_get_elapsed_ms clock self2) as [duration self3]. simpl in *.
  destruct (add_event_recording
              (set_duration duration (new_event "stop" t_stop)) self3)
    as [_ Hev4]; [congruence..|].
  set (self4 := _add_event _ self3) in *.
  destruct (get_elapsed_ms_session
              (set_paused false (set_is_recording false self4))) as [_ Hev5].
  destruct (_get_elapsed_ms clock _) as [? self5]. simpl in *.
  assert (modifier ∈ set_order (current_modifiers self)) as Hin'
    by (rewrite Horder; by apply elem_of_elements).
  apply list_elem_of_split in Hin' as (l1 & l2 & Hsplit).
  rewrite Hsplit in Hups.
  apply Forall2_app_inv_l in Hups as (ups1 & ups' & _ & Hups' & ->).
  apply Forall2_cons_inv_l in Hups' as (up & ups2 & [t ->] & _ & ->).
  exists ups1, t, ups2, t_stop, duration.
  rewrite Hev5, Hev4, Hev3, Hev2, Hev. by rewrite <- !app_assoc.
Qed.

(** Stopping a paused session appends nothing at all: neither a key-up for
    a modifier that is still down nor the stop marker. *)
Lemma stop_recording_paused self :
  is_recording self = true → paused self = true →
  events (stop_recording clock set_order self).2 = events self ∧
  is_recording (stop_recording clock set_order self).2 = false.
Proof.
  intros Hrec Hpaused. unfold stop_recording. rewrite Hrec. simpl.
  destruct (release_loop_paused (set_order (current_modifiers self))
              self Hpaused) as [(?&Hrec1&Hpaused1&?&?) Hev].
  set (self1 := foldl _ self _) in *.
  destruct (get_elapsed_ms_session self1) as [(?&Hrec2&Hpaused2&?&?) Hev2].
  destruct (_get_elapsed_ms clock self1) as [t_stop self2]. simpl in *.
  destruct (get_elapsed_ms_session self2) as [(?&Hrec3&Hpaused3&?&?) Hev3].
  destruct (_get_elapsed_ms clock self2) as [duration self3]. simpl in *.
  rewrite add_event_paused by congruence.
  destruct (get_elapsed_ms_session
              (set_paused false (set_is_recording false self3)))
    as [(?&Hrec5&?&?&?) Hev5].
  destruct (_get_elapsed_ms clock _) as [? self5]. simpl in *.
  split; congruence.
Qed.

(** A first press of a modifier key records it as down, sets its flag and
    appends the key-down event. *)
Lemma on_key_press_modifier self k :
  is_recording self = true → paused self = false →
  _is_modifier k = true →
  _key_to_str k ∉ current_modifiers self →
  let self' := (_on_key_press clock set_order k self).2 in
  is_recording self' = true ∧ paused self' = false ∧
  current_modifiers self' = {[_key_to_str k]} ∪ current_modifiers self ∧
  active_modifiers self' =
    _update_modifier_state (_key_to_str k) true (active_modifiers self) ∧
  ∃ t, events self' = events self ++ [key_event "down" (_key_to_str k) (Some k) t].
Proof.
  intros Hrec Hpaused Hmod Hnew. unfold _on_key_press.
  rewrite Hrec, Hpaused, Hmod. simpl negb. simpl orb. cbv iota.
  assert (k ≠ Key "esc" ∧ k ≠ Key "f1") as [Hesc Hf1].
  { split; intros ->; vm_compute in Hmod; discriminate. }
  rewrite !bool_decide_eq_false_2 by done.
  rewrite bool_decide_eq_true_2 by done. simpl.
  match goal with |- context [_add_key_event _ _ _ _ ?s] =>
    destruct (add_key_event_recording "down" (_key_to_str k) (Some k) s)
      as [(?&?&?&?&?) Hev]; [done..|] end.
  simpl in *. repeat split; congruence || done.
Qed.

(** Releasing a modifier that is recorded as down removes it, clears its
    flag and appends the key-up event. *)
Lemma on_key_release_modifier self k :
  is_recording self = true → paused self = false →
  _is_modifier k = true →
  _key_to_str k ∈ current_modifiers self →
  let self' := _on_key_release clock k self in
  is_recording self' = true ∧ paused self' = false ∧
  current_modifiers self' = current_modifiers self ∖ {[_key_to_str k]} ∧
  active_modifiers self' =
    _update_modifier_state (_key_to_str k) false (active_modifiers self) ∧
  ∃ t, events self' = events self ++ [key_event "up" (_key_to_str k) (Some k) t].
Proof.
  intros Hrec Hpaused Hmod Hdown. unfold _on_key_release.
  rewrite Hrec, Hpaused, Hmod. simpl negb. simpl orb. cbv iota.
  rewrite bool_decide_eq_true_2 by done. simpl.
  match goal with |- context [_add_key_event _ _ _ _ ?s] =>
    destruct (add_key_event_recording "up" (_key_to_str k) (Some k) s)
      as [(?&?&?&?&?) Hev]; [done..|] end.
  simpl in *. repeat split; congruence || done.
Qed.

(** A press of a character key appends a key-down event whose key is the
    character as the SHIFT flag resolves it. *)
Lemma on_key_press_char self a char vk :
  is_recording self = true → paused self = false →
  let c := String a char in
  let self' := (_on_key_press clock set_order (KeyCode (Some c) vk) self).2 in
  same_session self self' ∧
  ∃ t, events self' =
         events self ++
         [key_event "down"
            (if SHIFT (active_modifiers self) && isalpha c then upper c
             else if SHIFT (active_modifiers self) then get shift_map c c
             else c)
            (Some (KeyCode (Some c) vk)) t].
Proof.
  intros Hrec Hpaused c self'. subst self'. unfold _on_key_press.
  rewrite Hrec, Hpaused. simpl negb. simpl orb. cbv iota.
  rewrite !bool_decide_eq_false_2 by done. simpl _is_modifier. cbv iota.
  by apply add_key_event_recording.
Qed.

(** Among the code points below 128 the alphabetic ones are the 52
    letters, and [upper] moves the lower-case ones, and only them. *)
Lemma isalpha_letters :
  filter (λ n, isalpha (chr n) = true) (seq 0 128) = seq 65 26 ++ seq 97 26.
Proof. vm_compute. reflexivity. Qed.

Lemma upper_letters :
  (λ n, upper (chr n)) <$> seq 0 128 =
  (chr <$> seq 0 97) ++ (chr <$> seq 65 26) ++ (chr <$> seq 123 5).
Proof. vm_compute. reflexivity. Qed.

Lemma lower_letter (i : nat) :
  (i < 26)%nat →
  is_ascii (chr (97 + i)) = true ∧ isalpha (chr (97 + i)) = true ∧
  upper (chr (97 + i)) = chr (65 + i).
Proof.
  intros Hi.
  do 26 (destruct i as [|i]; [by vm_compute|]). lia.
Qed.

(** C6: with the SHIFT flag set, a press of ['1'] appends a key-down event
    whose key is ['!'], and a press of ['a'] one whose key is ['A']; each
    letter from ['a'] to ['z'] is recorded as its capital, and in general a
    character of the ASCII range is recorded as its upper case when it is a
    letter, and otherwise as its entry in the shift table (itself when it
    has none).  Releasing the SHIFT key that is down clears the flag, and a
    press of ['1'] then appends a key-down event whose key is ['1']. *)
Theorem shift_resolves_keys (self : recorder) (vk : option Z) :
  is_recording self = true → paused self = false →
  SHIFT (active_modifiers self) = true →
  "SHIFT_LEFT" ∈ current_modifiers self →
  let press c s :=
    events (_on_key_press clock set_order (KeyCode (Some c) vk) s).2 in
  let key_down resolved t :=
    {| e_type := Some "key_down"; e_key := Some resolved; e_t := Some t;
       e_delay := None; e_modifier := Some false; e_scan_code := Some vk;
       e_button := None; e_dx := None; e_dy := None; e_duration := None |} in
  let released := _on_key_release clock (Key "shift") self in
  (∃ t, press "1" self = events self ++ [key_down "!" t]) ∧
  (∃ t, press "a" self = events self ++ [key_down "A" t]) ∧
  (∀ i : nat, (i < 26)%nat →
     ∃ t, press (chr (97 + i)) self =
            events self ++ [key_down (chr (65 + i)) t]) ∧
  (∀ a s, let c := String a s in
     is_ascii c = true →
     ∃ t, press c self =
            events self ++
            [key_down (if isalpha c then upper c else get shift_map c c) t]) ∧
  SHIFT (active_modifiers released) = false ∧
  (∃ t, press "1" released = events released ++ [key_down "1" t]).
Proof.
  intros Hrec Hpaused Hshift Hdown press key_down released.
  assert (∀ a s, let c := String a s in
     is_ascii c = true →
     ∃ t, press c self =
            events self ++
            [key_down (if isalpha c then upper c else get shift_map c c) t])
    as Hgen.
  { intros a s c _.
    destruct (on_key_press_char self a s vk Hrec Hpaused) as [_ [t Ht]].
    exists t. subst press key_down c. cbv beta.
    etransitivity; [exact Ht|]. rewrite Hshift. reflexivity. }
  destruct (on_key_release_modifier self (Key "shift") Hrec Hpaused
              eq_refl Hdown) as (Hrec' & Hpaused' & _ & Hflags & _).
  fold released in Hrec', Hpaused', Hflags.
  assert (SHIFT (active_modifiers released) = false) as Hclear
    by (rewrite Hflags; reflexivity).
  split; [apply (Hgen "1"%char EmptyString); reflexivity|].
  split; [apply (Hgen "a"%char EmptyString); reflexivity|].
  split.
  { intros i Hi. destruct (lower_letter i Hi) as (Hascii & Halpha & Hupper).
    destruct (Hgen (Ascii.ascii_of_nat (97 + i)) EmptyString Hascii)
      as [t Ht].
    exists t. etransitivity; [exact Ht|].
    fold (chr (97 + i)). by rewrite Halpha, Hupper. }
  split; [exact Hgen|]. split; [exact Hclear|].
  destruct (on_key_press_char released "1"%char EmptyString vk Hrec' Hpaused')
    as [_ [t Ht]].
  exists t. subst press key_down. cbv beta.
  etransitivity; [exact Ht|]. rewrite Hclear. reflexivity.
Qed.

(** C5, which the code does not meet: in a session just started, the first
    toggle pauses the session but leaves the timeline as it was, without a
    pause marker; the second toggle resumes it and appends the resume
    marker. *)
Theorem pause_marker_not_recorded :
  let started := (start_recording clock init).2 in
  let toggled := pause_recording clock started in
  let toggled_again := pause_recording clock toggled in
  is_recording started = true ∧ paused started = false ∧
  events started = [new_event "start" 0] ∧
  paused toggled = true ∧ events toggled = [new_event "start" 0] ∧
  paused toggled_again = false ∧
  ∃ t, events toggled_again = [new_event "start" 0; new_event "resume" t].
Proof.
  intros started toggled toggled_again.
  assert (is_recording started = true ∧ paused started = false ∧
          events started = [new_event "start" 0]) as (Hrec & Hpaused & Hev)
    by done.
  destruct (pause_recording_drops_marker started Hrec Hpaused)
    as [Hpaused1 Hev1]. fold toggled in Hpaused1, Hev1.
  assert (is_recording toggled = true) as Hrec1
    by (subst toggled; by rewrite (proj1 (pause_recording_keeps started))).
  destruct (pause_recording_appends_resume toggled Hrec1 Hpaused1)
    as [Hpaused2 [t Hev2]]. fold toggled_again in Hpaused2, Hev2.
  repeat split; try done; try congruence.
  exists t. by rewrite Hev2, Hev1, Hev.
Qed.

(** C4, which the code does not meet when the session is paused: after
    start, a press of the left CTRL key and a pause, CTRL is still recorded
    as down; stopping then ends the session but leaves the timeline as it
    was, with neither a key-up for CTRL nor a stop marker. *)
Theorem stop_while_paused_leaves_modifier_down :
  let started := (start_recording clock init).2 in
  let held := (_on_key_press clock set_order (Key "ctrl_l") started).2 in
  let toggled := pause_recording clock held in
  let stopped := (stop_recording clock set_order toggled).2 in
  is_recording toggled = true ∧ paused toggled = true ∧
  "CTRL_LEFT" ∈ current_modifiers toggled ∧
  is_recording stopped = false ∧
  ∃ t, events stopped =
         [new_event "start" 0;
          key_event "down" "CTRL_LEFT" (Some (Key "ctrl_l")) t].
Proof.
  intros started held toggled stopped.
  destruct (on_key_press_modifier started (Key "ctrl_l") eq_refl eq_refl
              eq_refl) as (Hrec & Hpaused & Hmods & _ & [t Hev]);
    [set_solver|]. fold held in Hrec, Hpaused, Hmods, Hev.
  destruct (pause_recording_drops_marker held Hrec Hpaused)
    as [Hpaused1 Hev1]. fold toggled in Hpaused1, Hev1.
  assert (is_recording toggled = true ∧
          current_modifiers toggled = current_modifiers held)
    as [Hrec1 Hmods1].
  { subst toggled. destruct (pause_recording_keeps held) as [-> ->].
    by split. }
  destruct (stop_recording_paused toggled Hrec1 Hpaused1) as [Hev2 Hrec2].
  fold stopped in Hev2, Hrec2.
  split; [done|]. split; [done|]. split.
  { rewrite Hmods1, Hmods. set_solver. }
  split; [done|]. exists t. by rewrite Hev2, Hev1, Hev.
Qed.

End RecorderFacts.

Section RecorderWitnesses.
Import PyStr Recorder Scenario.

Lemma shift_resolves_keys_witness :
  let press c s :=
    events (_on_key_press sample_clock elements (KeyCode (Some c) (Some 49)) s).2 in
  let key_down resolved t :=
    {| e_type := Some "key_down"; e_key := Some resolved; e_t := Some t;
       e_delay := None; e_modifier := Some false; e_scan_code := Some (Some 49);
       e_button := None; e_dx := None; e_dy := None; e_duration := None |} in
  let released := _on_key_release sample_clock (Key "shift") shift_held in
  (∃ t, press "1" shift_held = events shift_held ++ [key_down "!" t]) ∧
  (∃ t, press "a" shift_held = events shift_held ++ [key_down "A" t]) ∧
  (∀ i : nat, (i < 26)%nat →
     ∃ t, press (chr (97 + i)) shift_held =
            events shift_held ++ [key_down (chr (65 + i)) t]) ∧
  (∀ a s, let c := String a s in
     is_ascii c = true →
     ∃ t, press c shift_held =
            events shift_held ++
            [key_down (if isalpha c then upper c else get shift_map c c) t]) ∧
  SHIFT (active_modifiers released) = false ∧
  (∃ t, press "1" released = events released ++ [key_down "1" t]).
Proof.
  apply (shift_resolves_keys sample_clock elements shift_held (Some 49)).
  - reflexivity.
  - reflexivity.
  - reflexivity.
  - vm_compute. set_solver.
Defined.

End RecorderWitnesses.

(** * Further properties of the code *)

(** ** More on the motion decomposer *)

Section MotionMore.
Import Motion.

Lemma greedy_length value max_step :
  0 < max_step →
  Z.of_nat (length (greedy value max_step)) =
    (Z.abs value + max_step - 1) / max_step.
Proof.
  intros Hm. unfold greedy. rewrite length_app, length_replicate.
  pose proof (Z.div_mod (Z.abs value) max_step ltac:(lia)) as Hdm.
  pose proof (Z.mod_pos_bound (Z.abs value) max_step Hm) as Hr.
  assert (0 ≤ Z.abs value / max_step) by (apply Z.div_pos; lia).
  set (a := Z.abs value) in *. set (q := a / max_step) in *.
  set (r := a mod max_step) in *. clearbody q r a.
  destruct (Z.eqb_spec r 0) as [H0|Hn0]; simpl length.
  - rewrite Nat.add_0_r, Z2Nat.id by done.
    apply (Z.div_unique _ _ _ (max_step - 1)); lia.
  - rewrite Nat2Z.inj_add, Z2Nat.id by done.
    apply (Z.div_unique _ _ _ (r - 1)); simpl length; lia.
Qed.

(** X1: The split uses as few steps as the bound allows: the number of steps of
    an axis is its distance divided by the bound, rounded up. *)
Theorem calculate_steps_count (value max_step : Z) :
  0 < max_step →
  ∃ steps,
    _calculate_steps value max_step = Some steps ∧
    Z.of_nat (length steps) = (Z.abs value + max_step - 1) / max_step.
Proof.
  intros Hm. exists (greedy value max_step).
  split; [by apply calculate_steps_greedy|by apply greedy_length].
Qed.

Lemma calculate_steps_count_witness :
  ∃ steps,
    _calculate_steps (-300) 127 = Some steps ∧
    Z.of_nat (length steps) = (Z.abs (-300) + 127 - 1) / 127.
Proof. apply (calculate_steps_count (-300) 127). lia. Defined.

Lemma greedy_small value max_step :
  0 < max_step → Z.abs value ≤ max_step →
  greedy value max_step = if value =? 0 then [] else [value].
Proof.
  intros Hm Hle. unfold greedy.
  destruct (Z.eqb_spec value 0) as [->|Hne]; [reflexivity|].
  destruct (Z.eq_dec (Z.abs value) max_step) as [Heq|Hlt].
  - rewrite Heq, Z.div_same, Z.mod_same by lia. simpl. f_equal. lia.
  - rewrite Z.div_small, Z.mod_small by lia. simpl.
    destruct (Z.eqb_spec (Z.abs value) 0); [lia|]. f_equal. lia.
Qed.

(** X2: A move within the bound on both axes is passed on as it is, in one
    step. *)
Theorem split_mouse_move_small (dx dy max_step : Z) :
  0 < max_step → Z.abs dx ≤ max_step → Z.abs dy ≤ max_step →
  (dx ≠ 0 ∨ dy ≠ 0) →
  _split_mouse_move dx dy max_step = Some [Move dx dy].
Proof.
  intros Hm Hx Hy Hne. rewrite split_mouse_move_greedy by done.
  rewrite !greedy_small by done.
  destruct (Z.eqb_spec dx 0) as [->|?]; destruct (Z.eqb_spec dy 0) as [->|?];
    try reflexivity. lia.
Qed.

Lemma split_mouse_move_small_witness :
  _split_mouse_move 0 (-127) 127 = Some [Move 0 (-127)].
Proof. apply (split_mouse_move_small 0 (-127) 127); lia. Defined.

(** X3: With a bound that is not positive the loop of [_calculate_steps] never
    ends on a nonzero value, whatever the number of iterations allowed, and
    the split of a move with such an axis does not return. *)
Theorem calculate_steps_diverges (value other max_step : Z) :
  max_step ≤ 0 → value ≠ 0 →
  (∀ fuel direction,
     calculate_steps_loop fuel (Z.abs value) max_step direction = None) ∧
  _calculate_steps value max_step = None ∧
  _split_mouse_move value other max_step = None ∧
  _split_mouse_move other value max_step = None.
Proof.
  intros Hm Hne.
  assert (∀ fuel direction,
    calculate_steps_loop fuel (Z.abs value) max_step direction = None) as Hloop
    by (intros; apply calculate_steps_loop_diverges; lia).
  assert (_calculate_steps value max_step = None) as Hcalc.
  { unfold _calculate_steps. destruct (Z.eqb_spec value 0); [done|].
    apply Hloop. }
  split; [done|]. split; [done|]. unfold _split_mouse_move.
  rewrite Hcalc. split; [done|].
  by destruct (_calculate_steps other max_step).
Qed.

Lemma calculate_steps_diverges_witness :
  (∀ fuel direction, calculate_steps_loop fuel (Z.abs 5) 0 direction = None) ∧
  _calculate_steps 5 0 = None ∧
  _split_mouse_move 5 0 0 = None ∧
  _split_mouse_move 0 5 0 = None.
Proof. apply (calculate_steps_diverges 5 0 0); lia. Defined.

End MotionMore.

(** ** More on the finalize-time delays *)

Section SavingMore.
Import Saving Session.

Lemma delays_loop_fails events :
  Exists (λ ev, e_t ev = None) events →
  ∀ last_time acc, delays_loop events last_time acc = Fail (KeyError "t").
Proof.
  induction events as [|ev events IH]; intros Hex last_time acc.
  - by apply Exists_nil in Hex.
  - simpl. destruct (e_t ev) as [t|] eqn:Ht; [|done].
    apply Exists_cons in Hex as [Hev|Hex]; [congruence|]. by apply IH.
Qed.

Lemma has_t_or_not events :
  Forall has_t events ∨ Exists (λ ev, e_t ev = None) events.
Proof.
  induction events as [|ev events [IH|IH]].
  - left. constructor.
  - destruct (e_t ev) as [t|] eqn:Ht.
    + left. constructor; [by exists t|done].
    + right. by left.
  - right. by right.
Qed.

(** What a successful run of the delay loop tells. *)
Lemma save_recording_ok events out duration :
  save_recording events = Ok (out, duration) →
  events ≠ [] ∧ Forall has_t events ∧ out = with_delays 0 events ∧
  duration = default 0 (last events ≫= e_t).
Proof.
  intros Hsave. destruct events as [|ev events]; [done|].
  split; [done|].
  destruct (has_t_or_not (ev :: events)) as [Hall|Hex].
  - split; [done|]. unfold save_recording in Hsave.
    rewrite delays_loop_with_delays in Hsave by done. by simplify_eq.
  - unfold save_recording in Hsave.
    by rewrite delays_loop_fails in Hsave.
Qed.

(** X4: [save_recording] fails with [KeyError] on [t] exactly when an event of a
    timeline that is not empty lacks its elapsed time; otherwise it
    returns. *)
Theorem save_recording_key_error (events : list event) :
  events ≠ [] →
  (save_recording events = Fail (KeyError "t") ↔
     ∃ ev, ev ∈ events ∧ e_t ev = None) ∧
  (Forall has_t events ↔ ∃ out duration, save_recording events = Ok (out, duration)).
Proof.
  intros Hne. destruct events as [|ev0 events]; [done|].
  split; split.
  - intros Hfail. destruct (has_t_or_not (ev0 :: events)) as [Hall|Hex].
    + unfold save_recording in Hfail.
      by rewrite delays_loop_with_delays in Hfail.
    + apply Exists_exists in Hex as (ev & ? & ?). eauto.
  - intros (ev & Hin & Hev). unfold save_recording.
    apply delays_loop_fails, Exists_exists. eauto.
  - intros Hall. unfold save_recording.
    rewrite delays_loop_with_delays by done. eauto.
  - intros (out & duration & Hsave).
    by apply save_recording_ok in Hsave as (_ & ? & _).
Qed.

Lemma save_recording_key_error_witness :
  let events := [ new_event "start" 0;
                  Event (Some "key_down") (Some "a") None None None None
                        None None None None ] in
  (save_recording events = Fail (KeyError "t") ↔
     ∃ ev, ev ∈ events ∧ e_t ev = None) ∧
  (Forall has_t events ↔ ∃ out duration, save_recording events = Ok (out, duration)).
Proof.
  apply (save_recording_key_error
           [ new_event "start" 0;
             Event (Some "key_down") (Some "a") None None None None
                   None None None None ]).
  discriminate.
Defined.

Lemma with_delays_again events :
  ∀ last_time,
    with_delays last_time (with_delays last_time events) =
    with_delays last_time events.
Proof.
  induction events as [|ev events IH]; intros last_time; [done|].
  simpl. by rewrite IH.
Qed.

Lemma with_delays_has_t events :
  Forall has_t events →
  ∀ last_time, Forall has_t (with_delays last_time events).
Proof.
  induction 1 as [|ev events Hev _ IH]; intros last_time; simpl;
    constructor; [exact Hev|apply IH].
Qed.

Lemma with_delays_last events :
  ∀ last_time,
    last (with_delays last_time events) ≫= e_t = last events ≫= e_t.
Proof.
  induction events as [|ev events IH]; intros last_time; [done|].
  destruct events as [|ev' events]; [done|].
  change (last (ev :: ev' :: events)) with (last (ev' :: events)).
  rewrite <- (IH (default 0 (e_t ev))). reflexivity.
Qed.

(** X5: Saving again what was saved changes nothing: the delays are computed
    from the elapsed times alone, and replace the delays already there. *)
Theorem save_recording_idempotent (events out : list event) (duration : Z) :
  save_recording events = Ok (out, duration) →
  save_recording out = Ok (out, duration).
Proof.
  intros Hsave.
  apply save_recording_ok in Hsave as (Hne & Hall & -> & ->).
  pose proof (with_delays_has_t _ Hall 0) as Hall'.
  pose proof (with_delays_last events 0) as Hlast.
  pose proof (with_delays_again events 0) as Hagain.
  destruct events as [|ev events]; [done|].
  destruct (with_delays 0 (ev :: events)) as [|ev' out] eqn:Hout; [done|].
  unfold save_recording.
  rewrite delays_loop_with_delays, Hagain, Hlast by done. reflexivity.
Qed.

Lemma save_recording_idempotent_witness :
  ∃ out, save_recording Scenario.timeline = Ok (out, 450) ∧
         save_recording out = Ok (out, 450).
Proof.
  eexists. split; [vm_compute; reflexivity|].
  apply (save_recording_idempotent Scenario.timeline).
  vm_compute. reflexivity.
Defined.

Lemma with_delays_nonnegative events :
  ∀ last_time,
    Forall (λ ev, ∃ d, e_delay ev = Some d ∧ 0 ≤ d)
      (with_delays last_time events)
    ↔ Sorted Z.le (last_time :: times events).
Proof.
  induction events as [|ev events IH]; intros last_time.
  - split; intros _; repeat constructor.
  - simpl with_delays. unfold times. rewrite fmap_cons. fold (times events).
    rewrite Forall_cons, IH. split.
    + intros [(d & Hd & Hpos) Hsorted]. simpl in Hd. simplify_eq.
      constructor; [done|]. constructor. lia.
    + intros Hsorted. apply Sorted_inv in Hsorted as [Hsorted Hhd].
      apply HdRel_inv in Hhd. split; [|done].
      eexists. split; [reflexivity|lia].
Qed.

(** X6: The saved delays are all non-negative exactly when the timeline is in
    the order of its elapsed times and does not start before zero. *)
Theorem save_recording_nonnegative (events out : list event) (duration : Z) :
  save_recording events = Ok (out, duration) →
  (Forall (λ ev, ∃ d, e_delay ev = Some d ∧ 0 ≤ d) out
   ↔ Sorted Z.le (0 :: times events)).
Proof.
  intros Hsave. apply save_recording_ok in Hsave as (_ & _ & -> & _).
  apply with_delays_nonnegative.
Qed.

Lemma save_recording_nonnegative_witness :
  ∃ out,
    save_recording Scenario.timeline = Ok (out, 450) ∧
    (Forall (λ ev, ∃ d, e_delay ev = Some d ∧ 0 ≤ d) out
     ↔ Sorted Z.le (0 :: times Scenario.timeline)).
Proof.
  eexists. split; [vm_compute; reflexivity|].
  apply (save_recording_nonnegative Scenario.timeline _ 450).
  vm_compute. reflexivity.
Defined.

End SavingMore.

(** ** More on the instruction compiler *)

Section CompilerMore.
Import PyStr Compiler Totals.

(** The steps of a split stay within the bound, and add up to the move. *)
Lemma split_moves_bound dx dy max_step moves :
  0 < max_step →
  Motion._split_mouse_move dx dy max_step = Some moves →
  Forall (λ m, Z.abs (Motion.m_dx m) ≤ max_step ∧
               Z.abs (Motion.m_dy m) ≤ max_step) moves.
Proof.
  intros Hm Hsplit. rewrite split_mouse_move_greedy in Hsplit by done.
  simplify_eq. apply Forall_fmap, Forall_forall. intros i _. simpl.
  split; apply (step_at_bound (λ s, Z.abs s ≤ max_step));
    (lia || by apply greedy_bound).
Qed.

Lemma split_moves_sum dx dy max_step moves :
  0 < max_step →
  Motion._split_mouse_move dx dy max_step = Some moves →
  Motion.sumZ (Motion.m_dx <$> moves) = dx ∧
  Motion.sumZ (Motion.m_dy <$> moves) = dy.
Proof.
  intros Hm Hsplit. rewrite split_mouse_move_greedy in Hsplit by done.
  simplify_eq. split; rewrite <- list_fmap_compose.
  - erewrite (list_fmap_ext _ (Motion.step_at (Motion.greedy dx max_step)))
      by done.
    rewrite sumZ_padded by lia. by apply greedy_sum.
  - erewrite (list_fmap_ext _ (Motion.step_at (Motion.greedy dy max_step)))
      by done.
    rewrite sumZ_padded by lia. by apply greedy_sum.
Qed.

(** What holds of the instructions of every iteration holds of the whole
    list. *)
Lemma export_loop_Forall (P : arduino_event → Prop) events :
  (∀ ev evts warns,
     ev ∈ events → export_event ev = Ok (evts, warns) → Forall P evts) →
  ∀ evts warns,
    export_loop events [] [] = Ok (evts, warns) → Forall P evts.
Proof.
  induction events as [|ev events IH]; intros Hstep evts warns Hloop.
  - simpl in Hloop. simplify_eq. constructor.
  - rewrite export_loop_cons in Hloop.
    destruct (export_event ev) as [[evts1 warns1]|] eqn:Hev; [|done].
    destruct (export_loop events [] []) as [[evts2 warns2]|] eqn:Hl; [|done].
    simpl in Hloop. simplify_eq. apply Forall_app. split.
    + eapply Hstep; [by left|done].
    + eapply IH; [|done]. intros ev' ?? Hin. apply Hstep. by right.
Qed.

(** On a timeline that is not empty the export returns, and what holds of
    the instructions of every iteration and survives the post-pass holds of
    its result. *)
Lemma export_Forall (P Q : arduino_event → Prop) events :
  events ≠ [] →
  (∀ ev evts warns,
     ev ∈ events → export_event ev = Ok (evts, warns) → Forall P evts) →
  (∀ a, P a → Q (optimize_delay a)) →
  ∃ out warns, export_for_arduino events = Ok (out, warns) ∧ Forall Q out.
Proof.
  intros Hne Hstep Hpost.
  destruct (export_loop_total events) as (evts & warns & Hloop).
  exists (optimize_delay <$> evts), warns. split.
  - unfold export_for_arduino. destruct events; [done|]. by rewrite Hloop.
  - apply Forall_fmap. eapply Forall_impl; [|exact Hpost].
    by eapply export_loop_Forall.
Qed.

Lemma move_events_Forall (P : arduino_event → Prop) moves :
  (∀ m delay, m ∈ moves → P (move_instr delay (Motion.m_dx m) (Motion.m_dy m))) →
  ∀ first delay, Forall P (move_events moves first delay).
Proof.
  induction moves as [|m moves IH]; intros HP first delay; simpl;
    constructor.
  - apply HP. by left.
  - apply IH. intros m' d Hin. apply HP. by right.
Qed.

(** The instructions of one iteration: for a [mouse_move] event those of
    [move_events] on the split of the move, and for any other event at most
    one instruction, with the delay of the event and without [dx] and
    [dy]. *)
Lemma export_event_cases ev evts warns :
  export_event ev = Ok (evts, warns) →
  (e_type ev = Some "mouse_move" ∧ warns = [] ∧
   ∃ moves,
     Motion._split_mouse_move (default 0 (e_dx ev)) (default 0 (e_dy ev)) 127
       = Some moves ∧
     evts = move_events moves true (default 0 (e_delay ev))) ∨
  (e_type ev ≠ Some "mouse_move" ∧
   (evts = [] ∨
    ∃ a, evts = [a] ∧ a_delay a = Some (default 0 (e_delay ev)) ∧
         a_dx a = None ∧ a_dy a = None)).
Proof.
  unfold export_event. destruct (e_type ev) as [etype|]; simpl default.
  2:{ eval_closed_decide. simpl. intros. simplify_eq. right. split; eauto. }
  destruct (decide (etype = "mouse_move")) as [->|Hne].
  - eval_closed_decide. simpl String.prefix. cbv iota.
    destruct (Motion._split_mouse_move _ _ 127) as [moves|] eqn:Hs;
      simpl; intros; simplify_eq. left. eauto.
  - intros Hev. right. split; [congruence|]. revert Hev.
    repeat (case_bool_decide || case_match); simpl; intros Heq;
      simplify_eq; eauto; right; eexists; by repeat split.
Qed.

Lemma move_events_lookup moves :
  ∀ first delay i,
    move_events moves first delay !! i =
      (λ m, move_instr (match i with
                        | O => if first then delay else 0
                        | S _ => 0
                        end) (Motion.m_dx m) (Motion.m_dy m))
      <$> moves !! i.
Proof.
  induction moves as [|m moves IH]; intros first delay i; [done|].
  destruct i as [|i]; simpl; [done|]. rewrite IH. by destruct i.
Qed.

Lemma move_events_sums moves :
  ∀ first delay,
    sum_dx (move_events moves first delay) = Motion.sumZ (Motion.m_dx <$> moves) ∧
    sum_dy (move_events moves first delay) = Motion.sumZ (Motion.m_dy <$> moves).
Proof.
  induction moves as [|m moves IH]; intros first delay; [done|].
  destruct (IH false 0) as [Hx Hy]. unfold sum_dx, sum_dy in *. simpl.
  unfold Motion.sumZ in *. simpl. by rewrite Hx, Hy.
Qed.

Lemma move_events_length moves :
  ∀ first delay, length (move_events moves first delay) = length moves.
Proof.
  induction moves as [|m moves IH]; intros first delay; simpl; [done|].
  by rewrite IH.
Qed.

(** X7: Every instruction that moves the pointer stays within the range of the
    device, -127 to 127 on each axis, whatever the timeline. *)
Theorem export_moves_in_range (events : list event) :
  events ≠ [] →
  ∃ out warns,
    export_for_arduino events = Ok (out, warns) ∧
    Forall (λ a, (∀ dx, a_dx a = Some dx → -127 ≤ dx ≤ 127) ∧
                 (∀ dy, a_dy a = Some dy → -127 ≤ dy ≤ 127)) out.
Proof.
  intros Hne.
  apply (export_Forall
           (λ a, (∀ dx, a_dx a = Some dx → -127 ≤ dx ≤ 127) ∧
                 (∀ dy, a_dy a = Some dy → -127 ≤ dy ≤ 127))); [done| |].
  - intros ev evts warns _ Hev.
    destruct (export_event_cases _ _ _ Hev)
      as [(_ & _ & moves & Hsplit & ->)|[_ Hother]].
    + pose proof (split_moves_bound _ _ 127 _ ltac:(lia) Hsplit) as Hb.
      apply move_events_Forall. intros m d Hin.
      rewrite Forall_forall in Hb. destruct (Hb m Hin) as [Hx Hy].
      simpl in Hx, Hy.
      split; intros v Hv; simpl in Hv; simplify_eq; lia.
    + destruct Hother as [->|(a & -> & _ & Hx & Hy)]; [constructor|].
      apply Forall_cons. split; [|constructor].
      split; intros v Hv; congruence.
  - intros a Ha. unfold optimize_delay.
    by destruct (default 0 (a_delay a) <? 10).
Qed.

Lemma export_moves_in_range_witness :
  ∃ out warns,
    export_for_arduino Scenario.timeline = Ok (out, warns) ∧
    Forall (λ a, (∀ dx, a_dx a = Some dx → -127 ≤ dx ≤ 127) ∧
                 (∀ dy, a_dy a = Some dy → -127 ≤ dy ≤ 127)) out.
Proof. apply (export_moves_in_range Scenario.timeline). discriminate. Defined.

(** X8: After the post-pass no delay lies between 1 and 9, and none is
    negative: every instruction waits either not at all or at least 10 ms. *)
Theorem export_delays_quantized (events : list event) :
  events ≠ [] →
  ∃ out warns,
    export_for_arduino events = Ok (out, warns) ∧
    Forall (λ a, ∃ d, a_delay a = Some d ∧ (d = 0 ∨ 10 ≤ d)) out.
Proof.
  intros Hne.
  apply (export_Forall (λ a, is_Some (a_delay a))); [done| |].
  - intros ev evts warns _ Hev. by eapply export_event_delay.
  - intros a [d Hd]. unfold optimize_delay. rewrite Hd. simpl.
    destruct (Z.ltb_spec d 10).
    + exists 0. split; [done|by left].
    + exists d. split; [done|by right].
Qed.

Lemma export_delays_quantized_witness :
  ∃ out warns,
    export_for_arduino Scenario.timed = Ok (out, warns) ∧
    Forall (λ a, ∃ d, a_delay a = Some d ∧ (d = 0 ∨ 10 ≤ d)) out ∧
    e_delay <$> Scenario.timed =
      [Some 0; Some 100; Some 9; Some 10; Some (-5); Some 3; Some 286] ∧
    a_delay <$> out =
      [Some 100; Some 0; Some 10; Some 0; Some 0; Some 286; Some 0; Some 0].
Proof.
  destruct (export_delays_quantized Scenario.timed)
    as (out & warns & Hexport & Hall); [discriminate|].
  exists out, warns. split; [exact Hexport|]. split; [exact Hall|].
  split; [reflexivity|].
  vm_compute in Hexport. injection Hexport as <- <-. reflexivity.
Defined.

Lemma export_event_delays ev evts warns :
  export_event ev = Ok (evts, warns) →
  Forall (λ a, a_delay a = Some (default 0 (e_delay ev)) ∨ a_delay a = Some 0)
    evts.
Proof.
  intros Hev.
  destruct (export_event_cases _ _ _ Hev)
    as [(_ & _ & moves & _ & ->)|[_ [->|(a & -> & Hd & _)]]].
  - apply Forall_lookup. intros i a Hi.
    rewrite move_events_lookup in Hi.
    destruct (moves !! i) as [m|]; simpl in Hi; simplify_eq.
    destruct i; simpl; eauto.
  - constructor.
  - repeat constructor. done.
Qed.

(** Events without a [delay] give instructions that all have delay 0. *)
Lemma export_no_delays (events : list event) :
  events ≠ [] →
  Forall (λ ev, e_delay ev = None) events →
  ∃ out warns,
    export_for_arduino events = Ok (out, warns) ∧
    Forall (λ a, a_delay a = Some 0) out.
Proof.
  intros Hne Hnone.
  apply (export_Forall (λ a, a_delay a = Some 0)); [done| |].
  - intros ev evts warns Hin Hev.
    rewrite Forall_forall in Hnone. specialize (Hnone _ Hin).
    eapply Forall_impl; [by eapply export_event_delays|].
    simpl. rewrite Hnone. simpl. by intros a [?|?].
  - intros a Ha. unfold optimize_delay. by rewrite Ha.
Qed.

(** X9: A [mouse_move] event compiles to moves that add up to its displacement
    on each axis; there are as many as the longer axis needs steps of 127,
    none at all for a zero displacement; the first one carries the delay of
    the event and the others delay 0; no warning is printed. *)
Theorem mouse_move_compiles (ev : event) :
  e_type ev = Some "mouse_move" →
  let dx := default 0 (e_dx ev) in
  let dy := default 0 (e_dy ev) in
  let delay := default 0 (e_delay ev) in
  ∃ mid,
    export_event ev = Ok (mid, []) ∧
    sum_dx mid = dx ∧ sum_dy mid = dy ∧
    Z.of_nat (length mid) =
      Z.max ((Z.abs dx + 126) / 127) ((Z.abs dy + 126) / 127) ∧
    (∀ i a, mid !! i = Some a →
       a_type a = Some "MOUSE_MOVE" ∧
       a_delay a = Some (match i with O => delay | S _ => 0 end)).
Proof.
  intros Hty dx dy delay.
  destruct (export_event_total ev) as (mid & warns & Hev).
  destruct (export_event_cases _ _ _ Hev)
    as [(_ & -> & moves & Hsplit & Hmid)|[Hne _]]; [|done].
  fold dx dy delay in Hsplit, Hmid.
  exists mid. split; [done|]. subst mid.
  destruct (split_moves_sum dx dy 127 moves ltac:(lia) Hsplit) as [Hx Hy].
  destruct (move_events_sums moves true delay) as [Hsx Hsy].
  split; [congruence|]. split; [congruence|]. split.
  - rewrite move_events_length.
    rewrite split_mouse_move_greedy in Hsplit by lia. simplify_eq.
    rewrite length_fmap, length_seq, Nat2Z.inj_max.
    rewrite !greedy_length by lia. f_equal; f_equal; lia.
  - intros i a Hi. rewrite move_events_lookup in Hi.
    destruct (moves !! i) as [m|]; simpl in Hi; simplify_eq.
    split; [done|]. by destruct i.
Qed.

Lemma mouse_move_compiles_witness :
  let ev := set_dxdy 300 (-5) (set_delay 250 (new_event "mouse_move" 400)) in
  ∃ mid,
    export_event ev = Ok (mid, []) ∧
    sum_dx mid = 300 ∧ sum_dy mid = -5 ∧
    Z.of_nat (length mid) =
      Z.max ((Z.abs 300 + 126) / 127) ((Z.abs (-5) + 126) / 127) ∧
    (∀ i a, mid !! i = Some a →
       a_type a = Some "MOUSE_MOVE" ∧
       a_delay a = Some (match i with O => 250 | S _ => 0 end)).
Proof.
  apply (mouse_move_compiles
           (set_dxdy 300 (-5) (set_delay 250 (new_event "mouse_move" 400)))).
  reflexivity.
Defined.

Lemma sum_dx_app l1 l2 : sum_dx (l1 ++ l2) = sum_dx l1 + sum_dx l2.
Proof. unfold sum_dx. induction l1 as [|a l1 IH]; simpl; lia. Qed.

Lemma sum_dy_app l1 l2 : sum_dy (l1 ++ l2) = sum_dy l1 + sum_dy l2.
Proof. unfold sum_dy. induction l1 as [|a l1 IH]; simpl; lia. Qed.

Lemma sum_optimize_delay evts :
  sum_dx (optimize_delay <$> evts) = sum_dx evts ∧
  sum_dy (optimize_delay <$> evts) = sum_dy evts.
Proof.
  induction evts as [|a evts [IHx IHy]]; [done|]. rewrite fmap_cons.
  change (sum_dx (optimize_delay a :: (optimize_delay <$> evts)))
    with (default 0 (a_dx (optimize_delay a))
          + sum_dx (optimize_delay <$> evts)).
  change (sum_dy (optimize_delay a :: (optimize_delay <$> evts)))
    with (default 0 (a_dy (optimize_delay a))
          + sum_dy (optimize_delay <$> evts)).
  rewrite IHx, IHy. unfold optimize_delay.
  by destruct (default 0 (a_delay a) <? 10).
Qed.

Lemma export_event_sums ev evts warns :
  export_event ev = Ok (evts, warns) →
  sum_dx evts = (if is_move ev then default 0 (e_dx ev) else 0) ∧
  sum_dy evts = (if is_move ev then default 0 (e_dy ev) else 0).
Proof.
  intros Hev. unfold is_move.
  destruct (export_event_cases _ _ _ Hev)
    as [(Hty & _ & moves & Hsplit & ->)|[Hne Hother]].
  - rewrite bool_decide_eq_true_2 by done.
    destruct (split_moves_sum _ _ 127 moves ltac:(lia) Hsplit) as [Hx Hy].
    destruct (move_events_sums moves true (default 0 (e_delay ev))).
    split; congruence.
  - rewrite bool_decide_eq_false_2 by done.
    destruct Hother as [->|(a & -> & _ & Hx & Hy)]; [done|].
    unfold sum_dx, sum_dy. simpl. by rewrite Hx, Hy.
Qed.

Lemma export_loop_sums events :
  ∀ evts warns,
    export_loop events [] [] = Ok (evts, warns) →
    sum_dx evts = moved_dx events ∧ sum_dy evts = moved_dy events.
Proof.
  induction events as [|ev events IH]; intros evts warns Hloop.
  - simpl in Hloop. by simplify_eq.
  - rewrite export_loop_cons in Hloop.
    destruct (export_event ev) as [[evts1 warns1]|] eqn:Hev; [|done].
    destruct (export_loop events [] []) as [[evts2 warns2]|] eqn:Hl; [|done].
    simpl in Hloop. simplify_eq.
    destruct (export_event_sums _ _ _ Hev) as [Hx Hy].
    destruct (IH _ _ eq_refl) as [IHx IHy].
    rewrite sum_dx_app, sum_dy_app, Hx, Hy, IHx, IHy. done.
Qed.

(** X10: The compiled program moves the pointer by exactly what the timeline
    recorded: over the whole result, the [dx] and [dy] of the instructions
    add up to those of the [mouse_move] events. *)
Theorem export_preserves_displacement (events : list event) :
  events ≠ [] →
  ∃ out warns,
    export_for_arduino events = Ok (out, warns) ∧
    sum_dx out = moved_dx events ∧ sum_dy out = moved_dy events.
Proof.
  intros Hne.
  destruct (export_loop_total events) as (evts & warns & Hloop).
  exists (optimize_delay <$> evts), warns. split.
  - unfold export_for_arduino. destruct events; [done|]. by rewrite Hloop.
  - destruct (sum_optimize_delay evts) as [-> ->].
    by eapply export_loop_sums.
Qed.

Lemma export_preserves_displacement_witness :
  ∃ out warns,
    export_for_arduino Scenario.timeline = Ok (out, warns) ∧
    sum_dx out = moved_dx Scenario.timeline ∧
    sum_dy out = moved_dy Scenario.timeline.
Proof.
  apply (export_preserves_displacement Scenario.timeline). discriminate.
Defined.

Lemma both_some (o1 o2 : option string) :
  match o1, o2 with
  | Some code, Some code' => String.eqb code code'
  | _, _ => false
  end = true →
  ∃ code, o1 = Some code ∧ o2 = Some code.
Proof.
  destruct o1 as [c1|], o2 as [c2|]; try done.
  intros ->%String.eqb_eq. eauto.
Qed.

(** X11: Every special key that the recorder names from its table has a keycode
    in the table of the compiler: its events are never dropped. *)
Theorem named_keys_have_keycodes (name key_str : string) :
  Recorder.arduino_map !! name = Some key_str →
  Recorder._key_to_str (Recorder.Key name) = key_str ∧
  ∃ code, key_map !! key_str = Some code ∧
          _to_arduino_keycode key_str = Some code.
Proof.
  intros Hname. split.
  { unfold Recorder._key_to_str, get. by rewrite Hname. }
  apply elem_of_map_to_list, list_elem_of_In in Hname.
  assert (forallb (λ kv : string * string,
            match key_map !! kv.2, _to_arduino_keycode kv.2 with
            | Some code, Some code' => String.eqb code code'
            | _, _ => false
            end) (map_to_list Recorder.arduino_map) = true) as Hall
    by (vm_compute; reflexivity).
  rewrite forallb_forall in Hall. specialize (Hall _ Hname).
  cbv beta in Hall. change ((name, key_str).2) with key_str in Hall.
  by apply both_some in Hall.
Qed.

Lemma named_keys_have_keycodes_witness :
  Recorder._key_to_str (Recorder.Key "page_up") = "PAGE_UP" ∧
  ∃ code, key_map !! "PAGE_UP" = Some code ∧
          _to_arduino_keycode "PAGE_UP" = Some code.
Proof. apply (named_keys_have_keycodes "page_up" "PAGE_UP"). reflexivity. Defined.

Lemma key_map_no_keycode s : key_map !! ("KEYCODE_" +:+ s) = None.
Proof.
  destruct (key_map !! ("KEYCODE_" +:+ s)) as [code|] eqn:Hk; [|done].
  apply elem_of_map_to_list in Hk.
  assert (Forall (λ kv, String.prefix "KEYCODE_" kv.1 = false)
            (map_to_list key_map)) as Hall
    by (vm_compute; repeat constructor).
  rewrite Forall_forall in Hall. specialize (Hall _ Hk).
  destruct s; vm_compute in Hall; discriminate.
Qed.

(** X12: A key that comes without a character is recorded under the name
    [KEYCODE_] followed by its virtual key code, which the compiler cannot
    map: its events give no instruction and one warning each. *)
Theorem dead_key_is_dropped (vk : option Z) (event_type : string)
    (key_obj : option Recorder.key) (t : Z) :
  event_type = "down" ∨ event_type = "up" →
  let key_str := Recorder._key_to_str (Recorder.KeyCode None vk) in
  key_str = "KEYCODE_" +:+ Recorder.str_vk vk ∧
  export_event (Recorder.key_event event_type key_str key_obj t) =
    Ok ([], [UnmappedKey key_str]).
Proof.
  intros Hty key_str. split; [done|].
  assert (e_type (Recorder.key_event event_type key_str key_obj t)
          = Some ("key_" +:+ event_type) ∧
          e_key (Recorder.key_event event_type key_str key_obj t)
          = Some key_str) as [Het Hek]
    by (unfold Recorder.key_event; by destruct key_obj).
  unfold export_event. rewrite Het, Hek. simpl default.
  rewrite bool_decide_eq_true_2
    by (destruct Hty as [->| ->]; [by left|by right; left]).
  unfold _to_arduino_keycode. subst key_str. simpl Recorder._key_to_str.
  change (len_is_1 ("KEYCODE_" +:+ Recorder.str_vk vk)) with false.
  cbv iota. rewrite key_map_no_keycode. reflexivity.
Qed.

Lemma dead_key_is_dropped_witness :
  let key_str := Recorder._key_to_str (Recorder.KeyCode None (Some 65027)) in
  key_str = "KEYCODE_" +:+ Recorder.str_vk (Some 65027) ∧
  export_event (Recorder.key_event "down" key_str
                  (Some (Recorder.KeyCode None (Some 65027))) 120) =
    Ok ([], [UnmappedKey key_str]).
Proof.
  apply (dead_key_is_dropped (Some 65027) "down"
           (Some (Recorder.KeyCode None (Some 65027))) 120).
  by left.
Defined.

Lemma button_map_values button :
  get button_map button "MOUSE_LEFT"
    ∈ ["MOUSE_LEFT"; "MOUSE_RIGHT"; "MOUSE_MIDDLE"] ∧
  (button ∉ ["LEFT"; "RIGHT"; "MIDDLE"] →
   get button_map button "MOUSE_LEFT" = "MOUSE_LEFT").
Proof.
  unfold get. destruct (button_map !! button) as [b|] eqn:Hb; simpl.
  - apply elem_of_map_to_list in Hb.
    assert (Forall (λ kv,
              bool_decide (kv.2 ∈ ["MOUSE_LEFT"; "MOUSE_RIGHT"; "MOUSE_MIDDLE"])
              && bool_decide (kv.1 ∈ ["LEFT"; "RIGHT"; "MIDDLE"]) = true)
              (map_to_list button_map)) as Hall
      by (vm_compute; repeat constructor).
    rewrite Forall_forall in Hall. specialize (Hall _ Hb). simpl in Hall.
    apply andb_prop in Hall as [H1 H2].
    apply bool_decide_eq_true_1 in H1, H2. by split.
  - split; [by left|done].
Qed.

(** X13: A button event always compiles to one instruction, whose [button] is
    the device's name for the button recorded, one of the three that the
    device knows; a button that the compiler does not know, or an event
    without a button, is compiled as the left button. *)
Theorem button_event_compiles (ev : event) (etype : string) :
  e_type ev = Some etype →
  etype ∈ ["mouse_down"; "mouse_up"] →
  let recorded := default "LEFT" (e_button ev) in
  let typ := if bool_decide (etype = "mouse_down")
             then "MOUSE_PRESS" else "MOUSE_RELEASE" in
  ∃ button,
    export_event ev =
      Ok ([ {| a_delay := Some (default 0 (e_delay ev)); a_type := Some typ;
               a_key := None; a_dx := None; a_dy := None;
               a_button := Some button; a_amount := None |} ], []) ∧
    button ∈ ["MOUSE_LEFT"; "MOUSE_RIGHT"; "MOUSE_MIDDLE"] ∧
    (recorded = "LEFT" → button = "MOUSE_LEFT") ∧
    (recorded = "RIGHT" → button = "MOUSE_RIGHT") ∧
    (recorded = "MIDDLE" → button = "MOUSE_MIDDLE") ∧
    (recorded ∉ ["LEFT"; "RIGHT"; "MIDDLE"] → button = "MOUSE_LEFT").
Proof.
  intros Hty Hin recorded typ.
  exists (get button_map recorded "MOUSE_LEFT").
  split.
  { unfold export_event. rewrite Hty. simpl default.
    apply list_elem_of_In in Hin. simpl in Hin.
    destruct Hin as [<-|[<-|[]]]; eval_closed_decide; reflexivity. }
  split; [apply button_map_values|].
  split; [by intros ->|]. split; [by intros ->|]. split; [by intros ->|].
  apply button_map_values.
Qed.

Lemma button_event_compiles_witness :
  let ev :=
    {| e_type := Some "mouse_down"; e_key := None; e_t := Some 300;
       e_delay := Some 25; e_modifier := None; e_scan_code := None;
       e_button := Some "RIGHT"; e_dx := None; e_dy := None;
       e_duration := None |} in
  ∃ button,
    export_event ev =
      Ok ([ {| a_delay := Some 25; a_type := Some "MOUSE_PRESS";
               a_key := None; a_dx := None; a_dy := None;
               a_button := Some button; a_amount := None |} ], []) ∧
    button ∈ ["MOUSE_LEFT"; "MOUSE_RIGHT"; "MOUSE_MIDDLE"] ∧
    ("RIGHT" = "LEFT" → button = "MOUSE_LEFT") ∧
    ("RIGHT" = "RIGHT" → button = "MOUSE_RIGHT") ∧
    ("RIGHT" = "MIDDLE" → button = "MOUSE_MIDDLE") ∧
    ("RIGHT" ∉ ["LEFT"; "RIGHT"; "MIDDLE"] → button = "MOUSE_LEFT").
Proof.
  apply (button_event_compiles
           {| e_type := Some "mouse_down"; e_key := None; e_t := Some 300;
              e_delay := Some 25; e_modifier := None; e_scan_code := None;
              e_button := Some "RIGHT"; e_dx := None; e_dy := None;
              e_duration := None |} "mouse_down").
  - reflexivity.
  - by left.
Defined.

End CompilerMore.

(** ** The program renderer *)

Section RenderFacts.
Import PyStr Compiler Render.

(** X14: A character key is compiled to its quoted literal and rendered as one
    [Keyboard.write] of that literal when pressed, and as nothing when
    released.  The apostrophe is the exception: stripping the quotes also
    strips the quote of its escape, and it is written as a backslash. *)
Theorem render_character_key (a : ascii) (t : Z) :
  let c := String a EmptyString in
  let written :=
    if bool_decide (c = "'") then "'\\'" else char_literal c in
  export_event (set_key c (new_event "key_down" t)) =
    Ok ([key_instr 0 "KEY_PRESS" (char_literal c)], []) ∧
  export_event (set_key c (new_event "key_up" t)) =
    Ok ([key_instr 0 "KEY_RELEASE" (char_literal c)], []) ∧
  render_call (key_instr 0 "KEY_PRESS" (char_literal c)) =
    ["  Keyboard.write(" +:+ written +:+ ");"] ∧
  render_call (key_instr 0 "KEY_RELEASE" (char_literal c)) = [].
Proof.
  destruct a as [[] [] [] [] [] [] [] []]; repeat split; vm_compute; reflexivity.
Qed.

Lemma key_map_code_not_quoted key code :
  key_map !! key = Some code → quoted code = false.
Proof.
  intros Hk. apply elem_of_map_to_list, list_elem_of_In in Hk.
  assert (forallb (λ kv : string * string, negb (quoted kv.2))
            (map_to_list key_map) = true) as Hall
    by (vm_compute; reflexivity).
  rewrite forallb_forall in Hall. specialize (Hall _ Hk).
  by apply negb_true_iff in Hall.
Qed.

(** X15: A key of the keycode table is rendered as a [Keyboard.press] of its
    keycode when pressed and as a [Keyboard.release] of it when released. *)
Theorem render_named_key (key code : string) (delay : Z) :
  key_map !! key = Some code →
  render_call (key_instr delay "KEY_PRESS" code) =
    ["  Keyboard.press(" +:+ code +:+ ");"] ∧
  render_call (key_instr delay "KEY_RELEASE" code) =
    ["  Keyboard.release(" +:+ code +:+ ");"].
Proof.
  intros Hk. pose proof (key_map_code_not_quoted _ _ Hk) as Hq.
  unfold render_call. simpl a_type. simpl a_key. simpl default.
  eval_closed_decide. cbv iota. by rewrite Hq.
Qed.

Lemma render_named_key_witness :
  render_call (key_instr 120 "KEY_PRESS" "KEY_LEFT_CTRL") =
    ["  Keyboard.press(" +:+ "KEY_LEFT_CTRL" +:+ ");"] ∧
  render_call (key_instr 120 "KEY_RELEASE" "KEY_LEFT_CTRL") =
    ["  Keyboard.release(" +:+ "KEY_LEFT_CTRL" +:+ ");"].
Proof.
  apply (render_named_key "CTRL_LEFT" "KEY_LEFT_CTRL" 120). reflexivity.
Defined.

(** X16: In the program rendered from an export no wait is shorter than 10 ms:
    an instruction is preceded by a [delay] line exactly when its delay is
    10 or more, and that line carries the delay. *)
Theorem render_waits (events : list event) :
  events ≠ [] →
  ∃ out warns,
    export_for_arduino events = Ok (out, warns) ∧
    Forall (λ a, ∃ d, a_delay a = Some d ∧
                 render_delay a =
                   if 10 <=? d then ["  delay(" +:+ pretty d +:+ ");"] else [])
      out.
Proof.
  intros Hne.
  apply (export_Forall (λ a, is_Some (a_delay a))); [done| |].
  - intros ev evts warns _ Hev. by eapply export_event_delay.
  - intros a [d Hd]. unfold optimize_delay. rewrite Hd. simpl.
    destruct (Z.ltb_spec d 10).
    + exists 0. split; [done|]. reflexivity.
    + exists d. split; [done|]. unfold render_delay. rewrite Hd. simpl.
      destruct (Z.ltb_spec 0 d); [|lia]. destruct (Z.leb_spec 10 d); [done|lia].
Qed.

Lemma render_waits_witness :
  ∃ out warns,
    export_for_arduino Scenario.timed = Ok (out, warns) ∧
    Forall (λ a, ∃ d, a_delay a = Some d ∧
                 render_delay a =
                   if 10 <=? d then ["  delay(" +:+ pretty d +:+ ");"] else [])
      out ∧
    e_delay <$> Scenario.timed =
      [Some 0; Some 100; Some 9; Some 10; Some (-5); Some 3; Some 286] ∧
    render_delay <$> out =
      [ ["  delay(100);"]; []; ["  delay(10);"]; []; [];
        ["  delay(286);"]; []; [] ].
Proof.
  destruct (render_waits Scenario.timed)
    as (out & warns & Hexport & Hall); [discriminate|].
  exists out, warns. split; [exact Hexport|]. split; [exact Hall|].
  split; [reflexivity|].
  vm_compute in Hexport. injection Hexport as <- <-. vm_compute. reflexivity.
Defined.

End RenderFacts.

(** ** Sessions of the recorder *)

Section SessionAppends.
Import PyStr Recorder Session.

Variable clock : nat → Z.
Variable set_order : gset string → list string.

(** A property of every event that the recorder builds. *)
Variable P : event → Prop.
Hypothesis P_marker : ∀ ty t,
  ty ∈ ["start"; "pause"; "resume"] → P (new_event ty t).
Hypothesis P_stop : ∀ d t, P (set_duration d (new_event "stop" t)).
Hypothesis P_key : ∀ event_type key_str key_obj t,
  P (key_event event_type key_str key_obj t).

Lemma appends_refl s : appends P s s.
Proof. exists []. by rewrite app_nil_r. Qed.

Lemma appends_trans s1 s2 s3 :
  appends P s1 s2 → appends P s2 s3 → appends P s1 s3.
Proof.
  intros (l1 & H1 & HP1) (l2 & H2 & HP2). exists (l1 ++ l2).
  split; [by rewrite H2, H1, app_assoc|by apply Forall_app].
Qed.

Lemma appends_same_events s s' : events s' = events s → appends P s s'.
Proof. intros Hev. exists []. by rewrite app_nil_r. Qed.

Lemma get_elapsed_ms_appends s : appends P s (_get_elapsed_ms clock s).2.
Proof. apply appends_same_events, get_elapsed_ms_session. Qed.

Lemma add_event_appends ev s : P ev → appends P s (_add_event ev s).
Proof.
  intros Hev. unfold _add_event.
  destruct (is_recording s && negb (paused s)); [|apply appends_refl].
  exists [ev]. split; [done|by constructor].
Qed.

Lemma add_key_event_appends event_type key_str key_obj s :
  appends P s (_add_key_event clock event_type key_str key_obj s).
Proof.
  unfold _add_key_event.
  pose proof (get_elapsed_ms_appends s) as Hread.
  destruct (_get_elapsed_ms clock s) as [t s']. simpl in Hread.
  eapply appends_trans; [exact Hread|]. by apply add_event_appends.
Qed.

Lemma pause_recording_appends s : appends P s (pause_recording clock s).
Proof.
  unfold pause_recording.
  destruct (negb (is_recording s)); [apply appends_refl|].
  set (s1 := set_paused (negb (paused s)) s).
  assert (appends P s s1) as H1 by (by apply appends_same_events).
  pose proof (get_elapsed_ms_appends s1) as Hread.
  destruct (paused s1); destruct (_get_elapsed_ms clock s1) as [t s2];
    simpl in Hread;
    (eapply appends_trans; [exact H1|]);
    (eapply appends_trans; [exact Hread|]);
    apply add_event_appends, P_marker; set_solver.
Qed.

Lemma release_loop_appends modifiers :
  ∀ s, appends P s
         (foldl (λ self modifier,
                   _add_key_event clock "up" modifier None self) s modifiers).
Proof.
  induction modifiers as [|m modifiers IH]; intros s; simpl.
  - apply appends_refl.
  - eapply appends_trans; [apply add_key_event_appends|apply IH].
Qed.

Lemma stop_recording_appends s :
  appends P s (stop_recording clock set_order s).2.
Proof.
  unfold stop_recording.
  destruct (negb (is_recording s)); [apply appends_refl|].
  pose proof (release_loop_appends (set_order (current_modifiers s)) s) as H1.
  set (s1 := foldl _ s _) in *.
  pose proof (get_elapsed_ms_appends s1) as H2.
  destruct (_get_elapsed_ms clock s1) as [t s2]. simpl in H2.
  pose proof (get_elapsed_ms_appends s2) as H3.
  destruct (_get_elapsed_ms clock s2) as [duration s3]. simpl in H3.
  pose proof (add_event_appends (set_duration duration (new_event "stop" t))
                s3 (P_stop _ _)) as H4.
  set (s4 := _add_event _ s3) in *.
  pose proof (get_elapsed_ms_appends
                (set_paused false (set_is_recording false s4))) as H5.
  destruct (_get_elapsed_ms clock _) as [? s5]. simpl in *.
  eapply appends_trans; [exact H1|].
  eapply appends_trans; [exact H2|].
  eapply appends_trans; [exact H3|].
  eapply appends_trans; [exact H4|]. exact H5.
Qed.

Lemma start_recording_appends s :
  appends P s (start_recording clock s).2.
Proof.
  unfold start_recording. destruct (is_recording s); [apply appends_refl|].
  simpl. exists [new_event "start" 0]. split; [done|].
  constructor; [apply P_marker; set_solver|constructor].
Qed.

Lemma on_key_press_appends k s :
  appends P s (_on_key_press clock set_order k s).2.
Proof.
  unfold _on_key_press.
  destruct (negb (is_recording s) || paused s); [apply appends_refl|].
  case_bool_decide.
  { pose proof (stop_recording_appends s) as Hstop.
    by destruct (stop_recording clock set_order s). }
  case_bool_decide; [apply pause_recording_appends|].
  destruct (_is_modifier k).
  - case_bool_decide; [|apply appends_refl]. simpl.
    eapply appends_trans; [|apply add_key_event_appends].
    by apply appends_same_events.
  - apply add_key_event_appends.
Qed.

Lemma on_key_release_appends k s :
  appends P s (_on_key_release clock k s).
Proof.
  unfold _on_key_release.
  destruct (negb (is_recording s) || paused s); [apply appends_refl|].
  destruct (_is_modifier k); [|apply add_key_event_appends].
  case_bool_decide; [|apply appends_refl].
  eapply appends_trans; [|apply add_key_event_appends].
  by apply appends_same_events.
Qed.

Lemma step_appends s a : appends P s (step clock set_order s a).
Proof.
  destruct a; simpl.
  - apply start_recording_appends.
  - apply pause_recording_appends.
  - apply stop_recording_appends.
  - apply on_key_press_appends.
  - apply on_key_release_appends.
Qed.

Lemma run_appends actions :
  ∀ s, appends P s (run clock set_order actions s).
Proof.
  induction actions as [|a actions IH]; intros s; simpl.
  - apply appends_refl.
  - eapply appends_trans; [apply step_appends|apply IH].
Qed.

End SessionAppends.

Section SessionFacts.
Import PyStr Recorder Session.

Variable clock : nat → Z.
Variable set_order : gset string → list string.

(** X17: Whatever the menu and the listener do, the recorder only ever appends to
    its timeline: the events already there stay as they are, and each event
    that is added has a type and an elapsed time, and no delay. *)
Theorem session_only_appends (actions : list action) (self : recorder) :
  ∃ added,
    events (run clock set_order actions self) = events self ++ added ∧
    Forall (λ ev, is_Some (e_type ev) ∧ is_Some (e_t ev) ∧ e_delay ev = None)
      added.
Proof.
  apply (run_appends clock set_order
           (λ ev, is_Some (e_type ev) ∧ is_Some (e_t ev) ∧ e_delay ev = None)).
  - intros. by repeat split.
  - intros. by repeat split.
  - intros ?? [k|] ?; by repeat split.
Qed.

Lemma stop_recording_ends self :
  is_recording (stop_recording clock set_order self).2 = false.
Proof.
  unfold stop_recording. destruct (is_recording self) eqn:Hrec; [|done].
  simpl negb. cbv iota.
  set (s1 := foldl _ self _).
  destruct (_get_elapsed_ms clock s1) as [t s2].
  destruct (_get_elapsed_ms clock s2) as [duration s3].
  set (s4 := _add_event _ s3).
  destruct (get_elapsed_ms_session clock
              (set_paused false (set_is_recording false s4)))
    as [(_ & Hrec5 & _) _].
  by destruct (_get_elapsed_ms clock _) as [? s5].
Qed.

(** X19: Stopping is idempotent: a second [stop_recording] returns [None] and
    leaves the recorder, its timeline included, as the first one left it. *)
Theorem stop_recording_idempotent (self : recorder) :
  let stopped := (stop_recording clock set_order self).2 in
  stop_recording clock set_order stopped = (None, stopped).
Proof.
  intros stopped. pose proof (stop_recording_ends self) as Hrec.
  fold stopped in Hrec. unfold stop_recording at 1. by rewrite Hrec.
Qed.

(** X20: Stopping a session that is not paused appends one key-up for each
    modifier still recorded as down, in the order of the iteration over the
    set and with the modifier as its key, then the stop marker with its
    elapsed time and its duration, and nothing else; it ends the session
    but does not forget the modifiers. *)
Theorem stop_recording_timeline (self : recorder) :
  is_recording self = true → paused self = false →
  let stopped := (stop_recording clock set_order self).2 in
  ∃ ups t duration,
    events stopped =
      events self ++ ups ++
      [ {| e_type := Some "stop"; e_key := None; e_t := Some t;
           e_delay := None; e_modifier := None; e_scan_code := None;
           e_button := None; e_dx := None; e_dy := None;
           e_duration := Some duration |} ] ∧
    Forall2 (λ modifier ev, ∃ t',
               ev = {| e_type := Some "key_up"; e_key := Some modifier;
                       e_t := Some t'; e_delay := None; e_modifier := None;
                       e_scan_code := None; e_button := None; e_dx := None;
                       e_dy := None; e_duration := None |})
      (set_order (current_modifiers self)) ups ∧
    length ups = length (set_order (current_modifiers self)) ∧
    is_recording stopped = false ∧ paused stopped = false ∧
    current_modifiers stopped = current_modifiers self.
Proof.
  intros Hrec Hpaused stopped. subst stopped.
  unfold stop_recording. rewrite Hrec. simpl negb. cbv iota.
  destruct (release_loop_recording clock (set_order (current_modifiers self))
              self Hrec Hpaused) as [(?&Hrec1&Hpaused1&Hcm1&?) (ups & Hev & Hups)].
  set (s1 := foldl _ self _) in *.
  destruct (get_elapsed_ms_session clock s1) as [(?&Hrec2&Hpaused2&Hcm2&?) Hev2].
  destruct (_get_elapsed_ms clock s1) as [t s2]. simpl in *.
  destruct (get_elapsed_ms_session clock s2) as [(?&Hrec3&Hpaused3&Hcm3&?) Hev3].
  destruct (_get_elapsed_ms clock s2) as [duration s3]. simpl in *.
  destruct (add_event_recording
              (set_duration duration (new_event "stop" t)) s3)
    as [(?&?&?&Hcm4&?) Hev4]; [congruence..|].
  set (s4 := _add_event _ s3) in *.
  destruct (get_elapsed_ms_session clock
              (set_paused false (set_is_recording false s4)))
    as [(?&Hrec5&Hpaused5&Hcm5&?) Hev5].
  destruct (_get_elapsed_ms clock _) as [? s5]. simpl in *.
  exists ups, t, duration. split.
  { rewrite Hev5, Hev4, Hev3, Hev2, Hev. by rewrite <- !app_assoc. }
  split; [exact Hups|].
  split; [symmetry; exact (Forall2_length _ _ _ Hups)|].
  repeat split; congruence.
Qed.

(** X21: Releasing one of two SHIFT keys that are both held clears the SHIFT
    flag although the other key is still recorded as down: a press of ['a']
    next appends a key-down event whose key is the lower-case ['a']. *)
Theorem release_one_of_two_shifts (self : recorder) (vk : option Z) :
  is_recording self = true → paused self = false →
  "SHIFT_LEFT" ∈ current_modifiers self →
  "SHIFT_RIGHT" ∈ current_modifiers self →
  let released := _on_key_release clock (Key "shift_l") self in
  "SHIFT_RIGHT" ∈ current_modifiers released ∧
  SHIFT (active_modifiers released) = false ∧
  ∃ t, events (_on_key_press clock set_order
                 (KeyCode (Some "a") vk) released).2 =
         events released ++
         [ {| e_type := Some "key_down"; e_key := Some "a"; e_t := Some t;
              e_delay := None; e_modifier := Some false;
              e_scan_code := Some vk; e_button := None; e_dx := None;
              e_dy := None; e_duration := None |} ].
Proof.
  intros Hrec Hpaused Hleft Hright released.
  destruct (on_key_release_modifier clock self (Key "shift_l") Hrec Hpaused
              eq_refl Hleft) as (Hrec' & Hpaused' & Hcm & Hflags & _).
  fold released in Hrec', Hpaused', Hcm, Hflags.
  assert (SHIFT (active_modifiers released) = false) as Hclear
    by (rewrite Hflags; reflexivity).
  split.
  { rewrite Hcm. apply elem_of_difference. split; [done|].
    intros Heq%elem_of_singleton. vm_compute in Heq. discriminate. }
  split; [done|].
  destruct (on_key_press_char clock set_order released "a"%char EmptyString vk
              Hrec' Hpaused') as [_ [t Ht]].
  exists t. etransitivity; [exact Ht|]. by rewrite Hclear.
Qed.

End SessionFacts.


Section SessionOrder.
Import PyStr Recorder Session.

Variable clock : nat → Z.
Variable set_order : gset string → list string.
Hypothesis clock_monotone : monotone clock.

Lemma passed_later s s' t :
  start_time s' = start_time s → (ticks s ≤ ticks s')%nat →
  passed clock s t → passed clock s' t.
Proof.
  intros Hstart Hticks Hp n Hn. unfold reading. rewrite Hstart.
  apply Hp. lia.
Qed.

Lemma in_order_later s s' :
  events s' = events s → start_time s' = start_time s →
  (ticks s ≤ ticks s')%nat →
  in_order clock s → in_order clock s'.
Proof.
  intros Hev Hstart Hticks (Ht & Hsorted & Hpassed & H0).
  unfold in_order. rewrite Hev. repeat split; try done.
  - eapply Forall_impl; [exact Hpassed|]. intros t. by apply passed_later.
  - by eapply passed_later.
Qed.

(** A reading of the elapsed time is not below the times recorded so far,
    and no later reading is below it. *)
Lemma get_elapsed_ms_in_order s :
  in_order clock s →
  let t := (_get_elapsed_ms clock s).1 in
  let s' := (_get_elapsed_ms clock s).2 in
  in_order clock s' ∧ events s' = events s ∧ start_time s' = start_time s ∧
  (ticks s ≤ ticks s')%nat ∧
  0 ≤ t ∧ Forall (λ t', t' ≤ t) (times (events s)) ∧ passed clock s' t.
Proof.
  intros Hin t s'. pose proof Hin as (Ht & Hsorted & Hpassed & H0).
  assert (t = reading clock s (ticks s) ∧ events s' = events s ∧
          start_time s' = start_time s ∧ (ticks s ≤ ticks s')%nat ∧
          passed clock s' t) as (Hread & Hev & Hstart & Hticks & Hp).
  { subst t s'. unfold _get_elapsed_ms, reading, passed, reading.
    destruct (start_time s) as [start|] eqn:Hs; simpl; [|by rewrite Hs].
    destruct (Z.eqb_spec start 0) as [->|Hne]; simpl.
    - rewrite Hs. simpl. repeat split; try done.
    - rewrite Hs. destruct (Z.eqb_spec start 0) as [|_]; [done|].
      repeat split; try done; [lia|]. intros m Hm.
      pose proof (clock_monotone (ticks s) m ltac:(lia)). lia. }
  split; [by apply (in_order_later s)|].
  repeat split; try done.
  - rewrite Hread. by apply H0.
  - eapply Forall_impl; [exact Hpassed|]. intros t' Ht'. rewrite Hread.
    by apply Ht'.
Qed.

Lemma sorted_snoc_le (l : list Z) t :
  Sorted Z.le l → Forall (λ t', t' ≤ t) l → Sorted Z.le (l ++ [t]).
Proof.
  intros Hsorted Hall. apply Sorted_snoc; [done|].
  destruct l as [|x l _] using rev_ind; [constructor|].
  constructor. apply Forall_app in Hall as [_ Hx]. by inversion Hx.
Qed.

(** Adding an event whose time was read in this session keeps the order. *)
Lemma add_event_in_order ev t s :
  e_t ev = Some t → 0 ≤ t →
  Forall (λ t', t' ≤ t) (times (events s)) → passed clock s t →
  in_order clock s → in_order clock (_add_event ev s).
Proof.
  intros Hev H0t Hle Hp Hin. unfold _add_event.
  destruct (is_recording s && negb (paused s)); [|done].
  destruct Hin as (Ht & Hsorted & Hpassed & H0).
  unfold in_order. simpl. unfold times. rewrite fmap_app. simpl.
  rewrite Hev. simpl. fold (times (events s)). repeat split.
  - apply Forall_app. split; [done|]. constructor; [by exists t|constructor].
  - change (0 :: times (events s) ++ [t]) with ((0 :: times (events s)) ++ [t]).
    apply sorted_snoc_le; [done|]. by constructor.
  - apply Forall_app. split; [done|]. by constructor.
  - done.
Qed.

Lemma key_event_t event_type key_str key_obj t :
  e_t (key_event event_type key_str key_obj t) = Some t.
Proof. unfold key_event. by destruct key_obj. Qed.

Lemma add_key_event_in_order event_type key_str key_obj s :
  in_order clock s →
  in_order clock (_add_key_event clock event_type key_str key_obj s) ∧
  start_time (_add_key_event clock event_type key_str key_obj s) = start_time s.
Proof.
  intros Hin. unfold _add_key_event.
  destruct (get_elapsed_ms_in_order s Hin)
    as (Hin' & Hev & Hstart & Hticks & H0 & Hle & Hp).
  destruct (_get_elapsed_ms clock s) as [t s']. simpl in *. split.
  - apply (add_event_in_order _ t); try done.
    + apply key_event_t.
    + by rewrite Hev.
  - unfold _add_event. by destruct (is_recording s' && negb (paused s')).
Qed.

Lemma marker_in_order ty s :
  in_order clock s →
  in_order clock (let '(t, s') := _get_elapsed_ms clock s in
                  _add_event (new_event ty t) s').
Proof.
  intros Hin.
  destruct (get_elapsed_ms_in_order s Hin)
    as (Hin' & Hev & Hstart & Hticks & H0 & Hle & Hp).
  destruct (_get_elapsed_ms clock s) as [t s']. simpl in *.
  apply (add_event_in_order _ t); try done. by rewrite Hev.
Qed.

Lemma pause_recording_in_order s :
  in_order clock s → in_order clock (pause_recording clock s).
Proof.
  intros Hin. unfold pause_recording.
  destruct (negb (is_recording s)); [done|].
  set (s1 := set_paused (negb (paused s)) s).
  assert (in_order clock s1) as Hin1 by (by apply (in_order_later s)).
  destruct (paused s1); by apply marker_in_order.
Qed.

Lemma release_loop_in_order modifiers :
  ∀ s, in_order clock s →
       in_order clock
         (foldl (λ self modifier,
                   _add_key_event clock "up" modifier None self) s modifiers).
Proof.
  induction modifiers as [|m modifiers IH]; intros s Hin; simpl; [done|].
  apply IH. by apply add_key_event_in_order.
Qed.

Lemma stop_recording_in_order s :
  in_order clock s → in_order clock (stop_recording clock set_order s).2.
Proof.
  intros Hin. unfold stop_recording.
  destruct (negb (is_recording s)); [done|].
  pose proof (release_loop_in_order (set_order (current_modifiers s)) s Hin)
    as Hin1.
  set (s1 := foldl _ s _) in *.
  destruct (get_elapsed_ms_in_order s1 Hin1)
    as (Hin2 & Hev2 & Hstart2 & Hticks2 & H0 & Hle & Hp).
  destruct (_get_elapsed_ms clock s1) as [t s2]. simpl in *.
  destruct (get_elapsed_ms_in_order s2 Hin2)
    as (Hin3 & Hev3 & Hstart3 & Hticks3 & _ & _ & _).
  destruct (_get_elapsed_ms clock s2) as [duration s3]. simpl in *.
  assert (in_order clock
            (_add_event (set_duration duration (new_event "stop" t)) s3))
    as Hin4.
  { apply (add_event_in_order _ t); try done.
    - by rewrite Hev3, Hev2.
    - by apply (passed_later s2). }
  set (s4 := _add_event _ s3) in *.
  assert (in_order clock (set_paused false (set_is_recording false s4)))
    as Hin5 by (by apply (in_order_later s4)).
  destruct (get_elapsed_ms_in_order _ Hin5) as (Hin6 & _).
  by destruct (_get_elapsed_ms clock _) as [? s6].
Qed.

Lemma on_key_press_in_order k s :
  in_order clock s → in_order clock (_on_key_press clock set_order k s).2.
Proof.
  intros Hin. unfold _on_key_press.
  destruct (negb (is_recording s) || paused s); [done|].
  case_bool_decide.
  { pose proof (stop_recording_in_order s Hin) as Hstop.
    by destruct (stop_recording clock set_order s). }
  case_bool_decide; [by apply pause_recording_in_order|].
  destruct (_is_modifier k).
  - case_bool_decide; [|done]. simpl.
    apply add_key_event_in_order. by apply (in_order_later s).
  - simpl. by apply add_key_event_in_order.
Qed.

Lemma on_key_release_in_order k s :
  in_order clock s → in_order clock (_on_key_release clock k s).
Proof.
  intros Hin. unfold _on_key_release.
  destruct (negb (is_recording s) || paused s); [done|].
  destruct (_is_modifier k); [|by apply add_key_event_in_order].
  case_bool_decide; [|done].
  apply add_key_event_in_order. by apply (in_order_later s).
Qed.

Lemma run_in_order actions :
  Forall (λ a, a ≠ Start) actions →
  ∀ s, in_order clock s → in_order clock (run clock set_order actions s).
Proof.
  induction 1 as [|a actions Ha _ IH]; intros s Hin; simpl; [done|].
  apply IH. destruct a; simpl.
  - done.
  - by apply pause_recording_in_order.
  - by apply stop_recording_in_order.
  - by apply on_key_press_in_order.
  - by apply on_key_release_in_order.
Qed.

Lemma start_recording_in_order s :
  is_recording s = false → events s = [] →
  in_order clock (start_recording clock s).2 ∧
  events (start_recording clock s).2 = [new_event "start" 0].
Proof.
  intros Hrec Hev. destruct s as [evs st rec p cm am tk]. simpl in *.
  subst. unfold start_recording. simpl. split; [|done].
  assert (passed clock
            (RecorderState [new_event "start" 0] (Some (clock tk)) true false
               ∅ no_modifiers (S tk)) 0) as Hp.
  { intros n Hn. unfold reading. simpl in *.
    destruct (clock tk =? 0); [done|].
    pose proof (clock_monotone tk n ltac:(lia)). lia. }
  unfold in_order. simpl. split; [|split; [|split]].
  - repeat constructor. by exists 0.
  - repeat constructor; lia.
  - by constructor.
  - done.
Qed.

(** X22: With a clock that never goes back, a session recorded from an empty
    timeline is in the order of its elapsed times, from the start marker at
    0 on, whatever the keys pressed and the pauses taken; saving it then
    succeeds and gives no negative delay. *)
Theorem session_timeline_in_order (self : recorder) (actions : list action) :
  is_recording self = false → events self = [] →
  Forall (λ a, a ≠ Start) actions →
  let recorded :=
    events (run clock set_order actions (start_recording clock self).2) in
  Forall Saving.has_t recorded ∧
  Sorted Z.le (0 :: times recorded) ∧
  ∃ out duration,
    Saving.save_recording recorded = Ok (out, duration) ∧
    Forall (λ ev, ∃ d, e_delay ev = Some d ∧ 0 ≤ d) out.
Proof.
  intros Hrec Hev Hactions recorded.
  destruct (start_recording_in_order self Hrec Hev) as [Hin Hstart].
  pose proof (run_in_order actions Hactions _ Hin) as (Ht & Hsorted & _).
  fold recorded in Ht, Hsorted.
  split; [done|]. split; [done|].
  destruct (run_appends clock set_order (λ _, True) ltac:(done) ltac:(done)
              ltac:(done) actions (start_recording clock self).2)
    as (added & Hadded & _).
  fold recorded in Hadded. rewrite Hstart in Hadded.
  exists (Saving.with_delays 0 recorded), (default 0 (last recorded ≫= e_t)).
  split.
  - unfold Saving.save_recording. rewrite Hadded. simpl app.
    rewrite <- (app_nil_l (Saving.with_delays 0 _)).
    change (new_event "start" 0 :: added) with ([new_event "start" 0] ++ added).
    rewrite <- Hadded. by apply delays_loop_with_delays.
  - by apply with_delays_nonnegative.
Qed.

Lemma with_delays_snoc events ev :
  ∀ last_time,
    Saving.with_delays last_time (events ++ [ev]) =
    Saving.with_delays last_time events ++
    [set_delay (default 0 (e_t ev)
                - match last events with
                  | Some ev' => default 0 (e_t ev')
                  | None => last_time
                  end) ev].
Proof.
  induction events as [|ev0 events IH]; intros last_time; [done|].
  simpl. rewrite IH. destruct events as [|ev1 events]; [done|].
  change (last (ev0 :: ev1 :: events)) with (last (ev1 :: events)).
  by destruct (last (ev1 :: events)) eqn:Hl; [|apply last_None in Hl].
Qed.

(** X23: [start_recording] does not clear the timeline: a second recording is
    appended to the first, and its start marker, at elapsed time 0, comes
    after the last event of the first; saved, that marker has the negated
    elapsed time of that event as its delay. *)
Theorem second_recording_is_appended (self : recorder) (ev_last : event)
    (t_last : Z) :
  is_recording self = false →
  Forall Saving.has_t (events self) →
  last (events self) = Some ev_last → e_t ev_last = Some t_last →
  let restarted := (start_recording clock self).2 in
  events restarted =
    events self ++
    [ {| e_type := Some "start"; e_key := None; e_t := Some 0;
         e_delay := None; e_modifier := None; e_scan_code := None;
         e_button := None; e_dx := None; e_dy := None;
         e_duration := None |} ] ∧
  ∃ out,
    Saving.save_recording (events restarted) = Ok (out, 0) ∧
    last out =
      Some {| e_type := Some "start"; e_key := None; e_t := Some 0;
              e_delay := Some (- t_last); e_modifier := None;
              e_scan_code := None; e_button := None; e_dx := None;
              e_dy := None; e_duration := None |}.
Proof.
  intros Hrec Hall Hlast Ht restarted.
  assert (events restarted = events self ++ [new_event "start" 0]) as Hev.
  { subst restarted. unfold start_recording. by rewrite Hrec. }
  split; [exact Hev|]. rewrite Hev.
  exists (Saving.with_delays 0 (events self ++ [new_event "start" 0])). split.
  - unfold Saving.save_recording.
    destruct (events self ++ [new_event "start" 0]) as [|e l] eqn:Heq;
      [by destruct (events self)|]. rewrite <- Heq.
    rewrite delays_loop_with_delays.
    + by rewrite last_snoc.
    + apply Forall_app. split; [done|]. repeat constructor. by exists 0.
  - rewrite with_delays_snoc, last_snoc, Hlast, Ht. simpl. do 2 f_equal.
Qed.

End SessionOrder.

Section SessionOrderWitnesses.
Import PyStr Recorder Session Scenario.

Lemma sample_clock_monotone : monotone sample_clock.
Proof. intros n m Hnm. unfold sample_clock. lia. Qed.

Lemma session_timeline_in_order_witness :
  let actions := [ Press (Key "ctrl_l"); Press (KeyCode (Some "c") (Some 67));
                   Toggle; Toggle; Release (KeyCode (Some "c") (Some 67));
                   Press (Key "esc") ] in
  let recorded :=
    events (run sample_clock elements actions
              (start_recording sample_clock init).2) in
  Forall Saving.has_t recorded ∧
  Sorted Z.le (0 :: times recorded) ∧
  ∃ out duration,
    Saving.save_recording recorded = Ok (out, duration) ∧
    Forall (λ ev, ∃ d, e_delay ev = Some d ∧ 0 ≤ d) out.
Proof.
  apply (session_timeline_in_order sample_clock elements sample_clock_monotone
           init
           [ Press (Key "ctrl_l"); Press (KeyCode (Some "c") (Some 67));
             Toggle; Toggle; Release (KeyCode (Some "c") (Some 67));
             Press (Key "esc") ]).
  - reflexivity.
  - reflexivity.
  - repeat constructor; discriminate.
Defined.

Lemma second_recording_is_appended_witness :
  let self := (stop_recording sample_clock elements
                 (start_recording sample_clock init).2).2 in
  let restarted := (start_recording sample_clock self).2 in
  events restarted =
    events self ++
    [ {| e_type := Some "start"; e_key := None; e_t := Some 0;
         e_delay := None; e_modifier := None; e_scan_code := None;
         e_button := None; e_dx := None; e_dy := None;
         e_duration := None |} ] ∧
  ∃ out,
    Saving.save_recording (events restarted) = Ok (out, 0) ∧
    last out =
      Some {| e_type := Some "start"; e_key := None; e_t := Some 0;
              e_delay := Some (- 50); e_modifier := None;
              e_scan_code := None; e_button := None; e_dx := None;
              e_dy := None; e_duration := None |}.
Proof.
  apply (second_recording_is_appended sample_clock
           (stop_recording sample_clock elements
              (start_recording sample_clock init).2).2
           {| e_type := Some "stop"; e_key := None; e_t := Some 50;
              e_delay := None; e_modifier := None; e_scan_code := None;
              e_button := None; e_dx := None; e_dy := None;
              e_duration := Some 100 |} 50).
  - reflexivity.
  - vm_compute. repeat constructor; by eexists.
  - reflexivity.
  - reflexivity.
Defined.

End SessionOrderWitnesses.

Section ModifierFlags.
Import PyStr Recorder Session.

Variable clock : nat → Z.
Variable set_order : gset string → list string.

(** The names under which modifier keys are recorded. *)
Lemma modifier_key_str k :
  _is_modifier k = true →
  _key_to_str k ∈ [ "SHIFT_LEFT"; "SHIFT_RIGHT"; "CTRL_LEFT"; "CTRL_RIGHT";
                    "ALT_LEFT"; "ALT_RIGHT"; "GUI_LEFT"; "GUI_RIGHT" ].
Proof.
  destruct k as [name|]; [|done]. simpl. intros Hmod.
  apply bool_decide_eq_true_1, list_elem_of_In in Hmod. simpl in Hmod.
  apply list_elem_of_In.
  repeat (destruct Hmod as [<-|Hmod];
          [vm_compute; repeat ((left; reflexivity) || right)|]).
  done.
Qed.

Lemma flags_backed_same s s' :
  current_modifiers s' = current_modifiers s →
  active_modifiers s' = active_modifiers s →
  flags_backed s → flags_backed s'.
Proof. unfold flags_backed. by intros -> ->. Qed.

Lemma flags_backed_pressed s s' key_str :
  key_str ∈ [ "SHIFT_LEFT"; "SHIFT_RIGHT"; "CTRL_LEFT"; "CTRL_RIGHT";
              "ALT_LEFT"; "ALT_RIGHT"; "GUI_LEFT"; "GUI_RIGHT" ] →
  current_modifiers s' = {[key_str]} ∪ current_modifiers s →
  active_modifiers s' =
    _update_modifier_state key_str true (active_modifiers s) →
  flags_backed s → flags_backed s'.
Proof.
  intros Hin Hcm Ham (Hs & Hc & Ha & Hg). unfold flags_backed.
  rewrite Hcm, Ham. apply list_elem_of_In in Hin. simpl in Hin.
  repeat (destruct Hin as [<-|Hin];
          [change (_update_modifier_state _ true (active_modifiers s))
             with (Modifiers true (CTRL (active_modifiers s))
                     (ALT (active_modifiers s)) (GUI (active_modifiers s)))
           || change (_update_modifier_state _ true (active_modifiers s))
             with (Modifiers (SHIFT (active_modifiers s)) true
                     (ALT (active_modifiers s)) (GUI (active_modifiers s)))
           || change (_update_modifier_state _ true (active_modifiers s))
             with (Modifiers (SHIFT (active_modifiers s))
                     (CTRL (active_modifiers s)) true
                     (GUI (active_modifiers s)))
           || change (_update_modifier_state _ true (active_modifiers s))
             with (Modifiers (SHIFT (active_modifiers s))
                     (CTRL (active_modifiers s))
                     (ALT (active_modifiers s)) true);
           simpl; repeat split; intros Hflag;
           first
             [ left; apply elem_of_union_l, elem_of_singleton; reflexivity
             | right; apply elem_of_union_l, elem_of_singleton; reflexivity
             | (destruct (Hs Hflag) || destruct (Hc Hflag)
                || destruct (Ha Hflag) || destruct (Hg Hflag));
               [left|right]; by apply elem_of_union_r ]
          |]).
  done.
Qed.

Lemma flags_backed_released s s' key_str :
  key_str ∈ [ "SHIFT_LEFT"; "SHIFT_RIGHT"; "CTRL_LEFT"; "CTRL_RIGHT";
              "ALT_LEFT"; "ALT_RIGHT"; "GUI_LEFT"; "GUI_RIGHT" ] →
  current_modifiers s' = current_modifiers s ∖ {[key_str]} →
  active_modifiers s' =
    _update_modifier_state key_str false (active_modifiers s) →
  flags_backed s → flags_backed s'.
Proof.
  intros Hin Hcm Ham (Hs & Hc & Ha & Hg). unfold flags_backed.
  rewrite Hcm, Ham. apply list_elem_of_In in Hin. simpl in Hin.
  repeat (destruct Hin as [<-|Hin];
          [change (_update_modifier_state _ false (active_modifiers s))
             with (Modifiers false (CTRL (active_modifiers s))
                     (ALT (active_modifiers s)) (GUI (active_modifiers s)))
           || change (_update_modifier_state _ false (active_modifiers s))
             with (Modifiers (SHIFT (active_modifiers s)) false
                     (ALT (active_modifiers s)) (GUI (active_modifiers s)))
           || change (_update_modifier_state _ false (active_modifiers s))
             with (Modifiers (SHIFT (active_modifiers s))
                     (CTRL (active_modifiers s)) false
                     (GUI (active_modifiers s)))
           || change (_update_modifier_state _ false (active_modifiers s))
             with (Modifiers (SHIFT (active_modifiers s))
                     (CTRL (active_modifiers s))
                     (ALT (active_modifiers s)) false);
           simpl; repeat split; intros Hflag; try done;
           ((destruct (Hs Hflag) || destruct (Hc Hflag)
             || destruct (Ha Hflag) || destruct (Hg Hflag));
            [left|right]; (apply elem_of_difference; split; [done|]);
            intros Heq%elem_of_singleton; discriminate)
          |]).
  done.
Qed.

(** Reading the clock, adding an event, pausing and stopping leave the
    modifiers as they are. *)
Lemma add_key_event_modifiers event_type key_str key_obj s :
  let s' := _add_key_event clock event_type key_str key_obj s in
  current_modifiers s' = current_modifiers s ∧
  active_modifiers s' = active_modifiers s.
Proof.
  unfold _add_key_event.
  destruct (get_elapsed_ms_session clock s) as [(_&_&_&Hcm&Ham) _].
  destruct (_get_elapsed_ms clock s) as [t s1]. simpl in *.
  unfold _add_event. by destruct (is_recording s1 && negb (paused s1)).
Qed.

Lemma pause_recording_modifiers s :
  current_modifiers (pause_recording clock s) = current_modifiers s ∧
  active_modifiers (pause_recording clock s) = active_modifiers s.
Proof.
  unfold pause_recording. destruct (negb (is_recording s)); [done|].
  set (s1 := set_paused (negb (paused s)) s).
  destruct (get_elapsed_ms_session clock s1) as [(_&_&_&Hcm&Ham) _].
  destruct (paused s1); destruct (_get_elapsed_ms clock s1) as [t s2];
    simpl in *; unfold _add_event;
    by destruct (is_recording s2 && negb (paused s2)).
Qed.

Lemma release_loop_modifiers modifiers :
  ∀ s,
    let s' := foldl (λ self modifier,
                       _add_key_event clock "up" modifier None self)
                s modifiers in
    current_modifiers s' = current_modifiers s ∧
    active_modifiers s' = active_modifiers s.
Proof.
  induction modifiers as [|m modifiers IH]; intros s; simpl; [done|].
  destruct (IH (_add_key_event clock "up" m None s)) as [-> ->].
  apply add_key_event_modifiers.
Qed.

Lemma stop_recording_modifiers s :
  current_modifiers (stop_recording clock set_order s).2 = current_modifiers s ∧
  active_modifiers (stop_recording clock set_order s).2 = active_modifiers s.
Proof.
  unfold stop_recording. destruct (negb (is_recording s)); [done|].
  destruct (release_loop_modifiers (set_order (current_modifiers s)) s)
    as [Hcm1 Ham1].
  set (s1 := foldl _ s _) in *.
  destruct (get_elapsed_ms_session clock s1) as [(_&_&_&Hcm2&Ham2) _].
  destruct (_get_elapsed_ms clock s1) as [t s2]. simpl in *.
  destruct (get_elapsed_ms_session clock s2) as [(_&_&_&Hcm3&Ham3) _].
  destruct (_get_elapsed_ms clock s2) as [duration s3]. simpl in *.
  set (s4 := _add_event (set_duration duration (new_event "stop" t)) s3).
  assert (current_modifiers s4 = current_modifiers s3 ∧
          active_modifiers s4 = active_modifiers s3) as [Hcm4 Ham4].
  { subst s4. unfold _add_event.
    by destruct (is_recording s3 && negb (paused s3)). }
  destruct (get_elapsed_ms_session clock
              (set_paused false (set_is_recording false s4)))
    as [(_&_&_&Hcm5&Ham5) _].
  destruct (_get_elapsed_ms clock _) as [? s5]. simpl in *.
  split; congruence.
Qed.

Lemma step_flags_backed s a :
  flags_backed s → flags_backed (step clock set_order s a).
Proof.
  intros Hb. destruct a as [| | |k|k]; simpl.
  - unfold start_recording. destruct (is_recording s); [done|].
    unfold flags_backed. simpl. by repeat split.
  - destruct (pause_recording_modifiers s). by eapply flags_backed_same.
  - destruct (stop_recording_modifiers s). by eapply flags_backed_same.
  - unfold _on_key_press.
    destruct (negb (is_recording s) || paused s); [done|].
    case_bool_decide.
    { destruct (stop_recording_modifiers s).
      destruct (stop_recording clock set_order s). simpl in *.
      by eapply flags_backed_same. }
    case_bool_decide.
    { destruct (pause_recording_modifiers s). by eapply flags_backed_same. }
    destruct (_is_modifier k) eqn:Hmod.
    + case_bool_decide; [|done]. simpl.
      match goal with |- flags_backed (_add_key_event _ _ _ _ ?s1) =>
        destruct (add_key_event_modifiers "down" (_key_to_str k) (Some k) s1)
          as [Hcm Ham] end.
      eapply flags_backed_pressed; [by apply modifier_key_str|..|exact Hb];
        done.
    + simpl.
      match goal with |- flags_backed (_add_key_event _ _ ?ks _ _) =>
        destruct (add_key_event_modifiers "down" ks (Some k) s) end.
      by eapply flags_backed_same.
  - unfold _on_key_release.
    destruct (negb (is_recording s) || paused s); [done|].
    destruct (_is_modifier k) eqn:Hmod.
    + case_bool_decide; [|done].
      match goal with |- flags_backed (_add_key_event _ _ _ _ ?s1) =>
        destruct (add_key_event_modifiers "up" (_key_to_str k) (Some k) s1)
          as [Hcm Ham] end.
      eapply flags_backed_released; [by apply modifier_key_str|..|exact Hb];
        done.
    + destruct (add_key_event_modifiers "up" (_key_to_str k) (Some k) s).
      by eapply flags_backed_same.
Qed.

(** X24: In every session of a fresh recorder, a modifier flag that is set
    has a key of its class in [current_modifiers]: no flag outlives the
    record of the keys that set it. *)
Theorem session_flags_backed (actions : list action) :
  flags_backed (run clock set_order actions init).
Proof.
  assert (flags_backed init) as Hinit by (unfold flags_backed; by repeat split).
  revert Hinit. generalize init.
  induction actions as [|a actions IH]; intros s Hs; simpl; [done|].
  apply IH. by apply step_flags_backed.
Qed.

End ModifierFlags.

(** ** The mouse callbacks *)

Section MouseFacts.
Import PyStr Recorder Mouse Totals.

Variable clock : nat → Z.
Variable set_order : gset string → list string.

Lemma moved_dx_app l1 l2 : moved_dx (l1 ++ l2) = moved_dx l1 + moved_dx l2.
Proof. unfold moved_dx. induction l1 as [|ev l1 IH]; simpl; lia. Qed.

Lemma moved_dy_app l1 l2 : moved_dy (l1 ++ l2) = moved_dy l1 + moved_dy l2.
Proof. unfold moved_dy. induction l1 as [|ev l1 IH]; simpl; lia. Qed.

Lemma moved_none l :
  Forall (λ ev, is_move ev = false) l → moved_dx l = 0 ∧ moved_dy l = 0.
Proof.
  unfold moved_dx, moved_dy. induction 1 as [|ev l Hev _ [IHx IHy]]; [done|].
  simpl. by rewrite Hev, IHx, IHy.
Qed.

(** The keyboard and the session markers record no move. *)
Lemma keyboard_step_moves s a :
  moved_dx (events (Session.step clock set_order s a)) = moved_dx (events s) ∧
  moved_dy (events (Session.step clock set_order s a)) = moved_dy (events s).
Proof.
  destruct (step_appends clock set_order (λ ev, is_move ev = false)) with s a
    as (added & Hev & Hall).
  - intros ty t Hty. unfold is_move. simpl.
    apply bool_decide_eq_false_2. intros [= ->].
    apply list_elem_of_In in Hty. simpl in Hty.
    by repeat destruct Hty as [Hty|Hty].
  - done.
  - intros event_type key_str [k|] t; apply bool_decide_eq_false_2;
      unfold key_event; simpl; intros [=].
  - rewrite Hev, moved_dx_app, moved_dy_app.
    destruct (moved_none _ Hall) as [-> ->]. lia.
Qed.


(** The reference position minus the recorded displacement: what the
    callbacks other than the click keep constant. *)
Lemma on_move_offset x y st :
  let st' := _on_move clock x y st in
  (last_mouse_pos st'.2).1 - moved_dx (events st'.1) =
    (last_mouse_pos st.2).1 - moved_dx (events st.1) ∧
  (last_mouse_pos st'.2).2 - moved_dy (events st'.1) =
    (last_mouse_pos st.2).2 - moved_dy (events st.1).
Proof.
  destruct st as [self p]. unfold _on_move.
  destruct (is_recording self) eqn:Hrec; [|done].
  destruct (paused self) eqn:Hpaused; [done|].
  destruct (record_mouse_moves p); [|done]. simpl negb. simpl orb. cbv iota.
  unfold time.
  destruct (_ <? mouse_move_interval p); [done|].
  destruct (last_mouse_pos p) as [last_x last_y] eqn:Hpos.
  destruct (_ && _); [simpl; by rewrite Hpos|].
  destruct (get_elapsed_ms_session clock (set_ticks (S (ticks self)) self))
    as [(_&Hrec'&Hpaused'&_) Hev].
  destruct (_get_elapsed_ms clock _) as [t self']. simpl in *.
  destruct (add_event_recording
              (set_dxdy (x - last_x) (y - last_y) (new_event "mouse_move" t))
              self') as [_ Hev']; [congruence..|].
  rewrite Hev', Hev, moved_dx_app, moved_dy_app.
  unfold moved_dx at 2, moved_dy at 2. simpl. rewrite Hpos. simpl. lia.
Qed.

Lemma on_scroll_offset x y dx dy st :
  let st' := _on_scroll clock x y dx dy st in
  st'.2 = st.2 ∧
  moved_dx (events st'.1) = moved_dx (events st.1) ∧
  moved_dy (events st'.1) = moved_dy (events st.1).
Proof.
  destruct st as [self p]. unfold _on_scroll.
  destruct (negb (is_recording self) || paused self); [done|].
  destruct (get_elapsed_ms_session clock self) as [_ Hev].
  destruct (_get_elapsed_ms clock self) as [t self']. simpl in *.
  unfold _add_event. destruct (is_recording self' && negb (paused self'));
    simpl; rewrite ?Hev; [|done].
  rewrite moved_dx_app, moved_dy_app. unfold moved_dx at 2, moved_dy at 2.
  simpl. split; [done|]. lia.
Qed.

Lemma step_offset st a :
  no_click a →
  let st' := step clock set_order st a in
  (last_mouse_pos st'.2).1 - moved_dx (events st'.1) =
    (last_mouse_pos st.2).1 - moved_dx (events st.1) ∧
  (last_mouse_pos st'.2).2 - moved_dy (events st'.1) =
    (last_mouse_pos st.2).2 - moved_dy (events st.1).
Proof.
  intros Hno. destruct a as [a|x y b pr|x y|x y dx dy]; [|done|..].
  - destruct st as [self p].
    assert (∀ a', (last_mouse_pos p).1
                  - moved_dx (events (Session.step clock set_order self a'))
                  = (last_mouse_pos p).1 - moved_dx (events self) ∧
                  (last_mouse_pos p).2
                  - moved_dy (events (Session.step clock set_order self a'))
                  = (last_mouse_pos p).2 - moved_dy (events self)) as Hkey.
    { intros a'. destruct (keyboard_step_moves self a') as [-> ->]. done. }
    destruct a; try apply Hkey.
    specialize (Hkey Session.Start). simpl in *. unfold start_recording.
    destruct (Recorder.start_recording clock self) as [[] self']; simpl in *;
      done.
  - apply on_move_offset.
  - destruct (on_scroll_offset x y dx dy st) as (Hp & Hx & Hy). simpl in *.
    by rewrite Hp, Hx, Hy.
Qed.

Lemma run_offset actions :
  Forall no_click actions →
  ∀ st,
    let st' := run clock set_order actions st in
    (last_mouse_pos st'.2).1 - moved_dx (events st'.1) =
      (last_mouse_pos st.2).1 - moved_dx (events st.1) ∧
    (last_mouse_pos st'.2).2 - moved_dy (events st'.1) =
      (last_mouse_pos st.2).2 - moved_dy (events st.1).
Proof.
  induction 1 as [|a actions Ha _ IH]; intros st; simpl; [done|].
  destruct (IH (step clock set_order st a)) as [Hx Hy].
  destruct (step_offset st a Ha) as [Hx' Hy']. simpl in *. split; congruence.
Qed.

(** X26: As long as no button is clicked, the moves recorded add up to the
    displacement of the reference position: a move that the filter drops, or
    that happens during a pause, is carried by the next move recorded. *)
Theorem recorded_moves_add_up (actions : list action)
    (st : recorder * pointer) :
  Forall no_click actions →
  let st' := run clock set_order actions st in
  (last_mouse_pos st'.2).1 - (last_mouse_pos st.2).1 =
    moved_dx (events st'.1) - moved_dx (events st.1) ∧
  (last_mouse_pos st'.2).2 - (last_mouse_pos st.2).2 =
    moved_dy (events st'.1) - moved_dy (events st.1).
Proof.
  intros Hno st'. destruct (run_offset actions Hno st) as [Hx Hy].
  fold st' in Hx, Hy. lia.
Qed.

(** X27: From recording to replay: as long as no button is clicked, the program
    compiled from a session of a fresh recorder moves the pointer by exactly
    the last position recorded, the first move being taken from the origin. *)
Theorem replay_reaches_last_position (actions : list action) :
  Forall no_click actions →
  let st' := run clock set_order actions (init, init_pointer) in
  events st'.1 ≠ [] →
  ∃ out warns,
    Compiler.export_for_arduino (events st'.1) = Ok (out, warns) ∧
    (sum_dx out, sum_dy out) = last_mouse_pos st'.2.
Proof.
  intros Hno st' Hne.
  destruct (run_offset actions Hno (init, init_pointer)) as [Hx Hy].
  fold st' in Hx, Hy. simpl in Hx, Hy.
  destruct (export_loop_total (events st'.1)) as (evts & warns & Hloop).
  exists (Compiler.optimize_delay <$> evts), warns. split.
  - unfold Compiler.export_for_arduino.
    destruct (events st'.1); [done|]. by rewrite Hloop.
  - destruct (sum_optimize_delay evts) as [-> ->].
    destruct (export_loop_sums _ _ _ Hloop) as [-> ->].
    destruct (last_mouse_pos st'.2) as [px py]. simpl in *.
    f_equal; unfold moved_dx, moved_dy in *; simpl in *; lia.
Qed.

Lemma button_str_cases button :
  button_str button =
    if bool_decide (button = "left") then "LEFT"
    else if bool_decide (button = "right") then "RIGHT"
    else if bool_decide (button = "middle") then "MIDDLE"
    else "Button." +:+ button.
Proof.
  unfold button_str, get, button_map, dict. simpl foldl.
  repeat case_bool_decide; subst; try reflexivity.
  by rewrite !lookup_insert_ne, lookup_empty by done.
Qed.

Lemma compiler_button_unknown s :
  get Compiler.button_map ("Button." +:+ s) "MOUSE_LEFT" = "MOUSE_LEFT".
Proof.
  unfold get, Compiler.button_map, dict. simpl foldl.
  by rewrite !lookup_insert_ne, lookup_empty by done.
Qed.

(** X28: A click is recorded as one button event, with the name of the button,
    and compiled to one instruction: the press or release of the left,
    right or middle button of the device for these three, and of the left
    button for any other button of the mouse.  The click also moves the
    reference position to where it happened, without recording a move. *)
Theorem click_records_and_compiles (x y : Z) (button : string)
    (pressed : bool) (self : recorder) (p : pointer) :
  is_recording self = true → paused self = false →
  let clicked := _on_click clock x y button pressed (self, p) in
  let recorded_button :=
    if bool_decide (button = "left") then "LEFT"
    else if bool_decide (button = "right") then "RIGHT"
    else if bool_decide (button = "middle") then "MIDDLE"
    else "Button." +:+ button in
  let device_button :=
    if bool_decide (button = "right") then "MOUSE_RIGHT"
    else if bool_decide (button = "middle") then "MOUSE_MIDDLE"
    else "MOUSE_LEFT" in
  ∃ ev,
    events clicked.1 = events self ++ [ev] ∧
    e_type ev = Some (if pressed then "mouse_down" else "mouse_up") ∧
    e_button ev = Some recorded_button ∧
    last_mouse_pos clicked.2 = (x, y) ∧
    moved_dx (events clicked.1) = moved_dx (events self) ∧
    moved_dy (events clicked.1) = moved_dy (events self) ∧
    Compiler.export_event ev =
      Ok ([ {| a_delay := Some 0;
               a_type := Some (if pressed then "MOUSE_PRESS"
                               else "MOUSE_RELEASE");
               a_key := None; a_dx := None; a_dy := None;
               a_button := Some device_button; a_amount := None |} ], []).
Proof.
  intros Hrec Hpaused clicked recorded_button device_button. subst clicked.
  unfold _on_click. rewrite Hrec, Hpaused. simpl negb. simpl orb. cbv iota.
  destruct (get_elapsed_ms_session clock self) as [(_&Hrec'&Hpaused'&_) Hev].
  destruct (_get_elapsed_ms clock self) as [t self']. simpl in *.
  set (ev := set_button (button_str button)
               (new_event ("mouse_" +:+ (if pressed then "down" else "up")) t)).
  destruct (add_event_recording ev self') as [_ Hev']; [congruence..|].
  exists ev. simpl. rewrite Hev', Hev, moved_dx_app, moved_dy_app.
  split; [done|].
  split; [by destruct pressed|].
  split; [subst recorded_button; by rewrite button_str_cases|].
  split; [done|].
  assert (is_move ev = false) as Hmove by (by destruct pressed).
  unfold moved_dx at 2, moved_dy at 2. simpl. rewrite Hmove.
  split; [lia|]. split; [lia|].
  subst ev device_button. rewrite button_str_cases.
  unfold Compiler.export_event. simpl e_type. simpl e_delay. simpl e_button.
  destruct pressed; simpl default; eval_closed_decide;
    simpl String.prefix; cbv iota;
    repeat case_bool_decide; subst; try done;
    by rewrite compiler_button_unknown.
Qed.

(** No callback of the mouse listener writes a delay either. *)
Lemma mouse_step_no_delay st a :
  Session.appends (λ ev, e_delay ev = None) st.1 (step clock set_order st a).1.
Proof.
  set (P := λ ev, e_delay ev = None).
  assert (∀ s a', Session.appends P s (Session.step clock set_order s a'))
    as Hkey.
  { intros s a'. apply step_appends; [done|done|by intros ?? [k|] ?]. }
  destruct st as [self p].
  destruct a as [a|x y button pressed|x y|x y dx dy]; simpl.
  - destruct a; try apply Hkey.
    specialize (Hkey self Session.Start). simpl in Hkey.
    unfold start_recording.
    by destruct (Recorder.start_recording clock self) as [started self'].
  - unfold _on_click.
    destruct (negb (is_recording self) || paused self);
      [apply appends_refl|].
    pose proof (get_elapsed_ms_appends clock P self) as Hread.
    destruct (_get_elapsed_ms clock self) as [t self']. simpl in *.
    eapply appends_trans; [exact Hread|]. by apply add_event_appends.
  - unfold _on_move.
    destruct (negb (is_recording self) || paused self
              || negb (record_mouse_moves p)); [apply appends_refl|].
    unfold time.
    destruct (_ <? mouse_move_interval p); [by apply appends_same_events|].
    destruct (last_mouse_pos p) as [last_x last_y].
    destruct (_ && _); [by apply appends_same_events|].
    pose proof (get_elapsed_ms_appends clock P
                  (set_ticks (S (ticks self)) self)) as Hread.
    destruct (_get_elapsed_ms clock _) as [t self']. simpl in *.
    eapply appends_trans; [exact Hread|]. by apply add_event_appends.
  - unfold _on_scroll.
    destruct (negb (is_recording self) || paused self);
      [apply appends_refl|].
    pose proof (get_elapsed_ms_appends clock P self) as Hread.
    destruct (_get_elapsed_ms clock self) as [t self']. simpl in *.
    eapply appends_trans; [exact Hread|]. by apply add_event_appends.
Qed.

Lemma mouse_run_no_delay actions :
  ∀ st, Session.appends (λ ev, e_delay ev = None) st.1
          (run clock set_order actions st).1.
Proof.
  induction actions as [|a actions IH]; intros st; simpl.
  - apply appends_refl.
  - eapply appends_trans; [apply mouse_step_no_delay|apply IH].
Qed.

(** X18: A timeline exported as it comes out of a recording, without a save and
    a load in between, has lost its timing, whatever the keyboard, the
    mouse and the menu did during the recording: the delays exist only in
    the copies that [save_recording] writes, and every instruction gets
    delay 0. *)
Theorem recording_exports_without_timing (actions : list action) :
  let recorded :=
    events (run clock set_order actions (init, init_pointer)).1 in
  recorded ≠ [] →
  ∃ out warns,
    Compiler.export_for_arduino recorded = Ok (out, warns) ∧
    Forall (λ a, a_delay a = Some 0) out.
Proof.
  intros recorded Hne. apply export_no_delays; [done|].
  destruct (mouse_run_no_delay actions (init, init_pointer))
    as (added & Hev & Hall).
  subst recorded. by rewrite Hev.
Qed.

End MouseFacts.

Section MouseWitnesses.
Import PyStr Recorder Mouse Totals Scenario.


Lemma recorded_moves_add_up_witness :
  let actions := [ Keyboard Session.Start; Move 300 2; Move 301 3;
                   Keyboard Session.Toggle; Move 10 10;
                   Keyboard Session.Toggle; Scroll 10 10 0 (-1);
                   Move 20 40 ] in
  let st' := run sample_clock elements actions (init, init_pointer) in
  (last_mouse_pos st'.2).1 - 0 = moved_dx (events st'.1) - 0 ∧
  (last_mouse_pos st'.2).2 - 0 = moved_dy (events st'.1) - 0.
Proof.
  apply (recorded_moves_add_up sample_clock elements
           [ Keyboard Session.Start; Move 300 2; Move 301 3;
             Keyboard Session.Toggle; Move 10 10;
             Keyboard Session.Toggle; Scroll 10 10 0 (-1);
             Move 20 40 ] (init, init_pointer)).
  repeat constructor.
Defined.

Lemma replay_reaches_last_position_witness :
  let actions := [ Keyboard Session.Start; Move 300 2; Move 301 3;
                   Keyboard Session.Toggle; Move 10 10;
                   Keyboard Session.Toggle; Scroll 10 10 0 (-1);
                   Move 20 40 ] in
  let st' := run sample_clock elements actions (init, init_pointer) in
  ∃ out warns,
    Compiler.export_for_arduino (events st'.1) = Ok (out, warns) ∧
    (sum_dx out, sum_dy out) = last_mouse_pos st'.2.
Proof.
  apply (replay_reaches_last_position sample_clock elements
           [ Keyboard Session.Start; Move 300 2; Move 301 3;
             Keyboard Session.Toggle; Move 10 10;
             Keyboard Session.Toggle; Scroll 10 10 0 (-1);
             Move 20 40 ]).
  - repeat constructor.
  - vm_compute. discriminate.
Defined.

Lemma click_records_and_compiles_witness :
  let self := (Recorder.start_recording sample_clock init).2 in
  let clicked :=
    _on_click sample_clock 40 50 "right" true (self, init_pointer) in
  ∃ ev,
    events clicked.1 = events self ++ [ev] ∧
    e_type ev = Some "mouse_down" ∧
    e_button ev = Some "RIGHT" ∧
    last_mouse_pos clicked.2 = (40, 50) ∧
    moved_dx (events clicked.1) = moved_dx (events self) ∧
    moved_dy (events clicked.1) = moved_dy (events self) ∧
    Compiler.export_event ev =
      Ok ([ {| a_delay := Some 0; a_type := Some "MOUSE_PRESS";
               a_key := None; a_dx := None; a_dy := None;
               a_button := Some "MOUSE_RIGHT"; a_amount := None |} ], []).
Proof.
  apply (click_records_and_compiles sample_clock 40 50 "right" true
           (Recorder.start_recording sample_clock init).2 init_pointer);
    reflexivity.
Defined.

Lemma recording_exports_without_timing_witness :
  let actions := [ Keyboard Session.Start;
                   Keyboard (Session.Press (KeyCode (Some "a") (Some 65)));
                   Keyboard (Session.Release (KeyCode (Some "a") (Some 65)));
                   Move 300 2; Click 300 2 "left" true;
                   Click 300 2 "left" false; Scroll 300 2 0 (-1);
                   Keyboard Session.Stop ] in
  let recorded :=
    events (run sample_clock elements actions (init, init_pointer)).1 in
  ∃ out warns,
    Compiler.export_for_arduino recorded = Ok (out, warns) ∧
    Forall (λ a, a_delay a = Some 0) out.
Proof.
  apply (recording_exports_without_timing sample_clock elements
           [ Keyboard Session.Start;
             Keyboard (Session.Press (KeyCode (Some "a") (Some 65)));
             Keyboard (Session.Release (KeyCode (Some "a") (Some 65)));
             Move 300 2; Click 300 2 "left" true;
             Click 300 2 "left" false; Scroll 300 2 0 (-1);
             Keyboard Session.Stop ]).
  vm_compute. discriminate.
Defined.

Lemma stop_recording_timeline_witness :
  let stopped := (stop_recording sample_clock elements shift_held).2 in
  ∃ ups t duration,
    events stopped =
      events shift_held ++ ups ++
      [ {| e_type := Some "stop"; e_key := None; e_t := Some t;
           e_delay := None; e_modifier := None; e_scan_code := None;
           e_button := None; e_dx := None; e_dy := None;
           e_duration := Some duration |} ] ∧
    Forall2 (λ modifier ev, ∃ t',
               ev = {| e_type := Some "key_up"; e_key := Some modifier;
                       e_t := Some t'; e_delay := None; e_modifier := None;
                       e_scan_code := None; e_button := None; e_dx := None;
                       e_dy := None; e_duration := None |})
      (elements (current_modifiers shift_held)) ups ∧
    length ups = length (elements (current_modifiers shift_held)) ∧
    is_recording stopped = false ∧ paused stopped = false ∧
    current_modifiers stopped = current_modifiers shift_held.
Proof.
  apply (stop_recording_timeline sample_clock elements shift_held);
    reflexivity.
Defined.

Lemma release_one_of_two_shifts_witness :
  let self := (_on_key_press sample_clock elements (Key "shift_r")
                 shift_held).2 in
  let released := _on_key_release sample_clock (Key "shift_l") self in
  "SHIFT_RIGHT" ∈ current_modifiers released ∧
  SHIFT (active_modifiers released) = false ∧
  ∃ t, events (_on_key_press sample_clock elements
                 (KeyCode (Some "a") (Some 65)) released).2 =
         events released ++
         [ {| e_type := Some "key_down"; e_key := Some "a"; e_t := Some t;
              e_delay := None; e_modifier := Some false;
              e_scan_code := Some (Some 65); e_button := None; e_dx := None;
              e_dy := None; e_duration := None |} ].
Proof.
  apply (release_one_of_two_shifts sample_clock elements
           (_on_key_press sample_clock elements (Key "shift_r") shift_held).2
           (Some 65)).
  - reflexivity.
  - reflexivity.
  - vm_compute. set_solver.
  - vm_compute. set_solver.
Defined.

End MouseWitnesses.
